(** * Color-area state and submenu-trigger timing: a shallow embedding

    Two hooks of the repository are embedded:

    - [useColorAreaState] (the color-area value model): channel
      resolution, pointer-to-channel conversion, stepped
      increment/decrement and the drag life cycle;
    - [useSubMenuTrigger] (packages/@react-aria/menu): the hover-delay
      timer and the keyboard and press handlers of a submenu trigger.

    JavaScript numbers are embedded as exact rationals ([Q]); [!==] on
    numbers is [negb (Qeq_bool _ _)] and a number is falsy when it is
    zero.  Rounding of IEEE doubles and NaN are outside the model. *)

From Stdlib Require Import QArith Qminmax Qround ZArith List Bool Lia Lqa String PeanoNat.
Import ListNotations.

Local Open Scope Q_scope.

(* ===================================================================== *)
(** * The color-area model *)
(* ===================================================================== *)

Module ColorArea.

(** Modelled from the spec: the [ColorChannel] type of @react-types/color
    is not part of the sources; the channel names are the ones the spec
    and the hook mention (the RGB triple, the HSB/HSL triples, alpha). *)
Inductive ColorChannel : Type :=
| hue | saturation | brightness | lightness | red | green | blue | alpha.

Definition ColorChannel_eqb (a b : ColorChannel) : bool :=
  match a, b with
  | hue, hue | saturation, saturation | brightness, brightness
  | lightness, lightness | red, red | green, green | blue, blue
  | alpha, alpha => true
  | _, _ => false
  end.

(** [{minValue, maxValue, step}] as returned by [getChannelRange]. *)
Record ChannelRange : Type := mkRange {
  minValue : Q;
  maxValue : Q;
  step : Q
}.

(** Modelled from the spec: the Color collaborator (./Color is not part
    of the sources).  A color answers [getChannelValue] and
    [getChannelRange]; it is immutable. *)
Record Color : Type := mkColor {
  getChannelValue : ColorChannel -> Q;
  getChannelRange : ColorChannel -> ChannelRange
}.

(** Modelled from the spec: [withChannelValue(channel, v)] returns a new
    color with one channel replaced and all other channels unchanged. *)
Definition withChannelValue (c : Color) (ch : ColorChannel) (v : Q) : Color :=
  {| getChannelValue := fun k => if ColorChannel_eqb k ch then v else getChannelValue c k;
     getChannelRange := getChannelRange c |}.

(** ** JavaScript [Set] of channels: insertion ordered, no duplicates *)

Definition JSSet := list ColorChannel.

Definition has (s : JSSet) (x : ColorChannel) : bool :=
  existsb (ColorChannel_eqb x) s.

Definition add (s : JSSet) (x : ColorChannel) : JSSet :=
  if has s x then s else s ++ [x].

(** [new Set(iterable)] *)
Definition newSet (l : list ColorChannel) : JSSet := fold_left add l [].

(** [const RGBSet = new Set(['red', 'green', 'blue'])] *)
Definition RGBSet : JSSet := newSet [red; green; blue].

(** [let difference = (a, b) => new Set([...a].filter(x => !b.has(x)))] *)
Definition difference (a b : JSSet) : JSSet :=
  newSet (filter (fun x => negb (has b x)) a).

(** ** Props *)

Module Props.
(** The destructured part of [ColorAreaProps] that the hook body reads.  A
    missing prop is [None]; a callback is represented by its presence. *)
Record t : Type := mk {
  xChannel : option ColorChannel;
  yChannel : option ColorChannel;
  onChange : bool;
  onChangeEnd : bool;
  xChannelStep : option Q;
  yChannelStep : option Q
}.
End Props.

(** ** Channel resolution (source lines 80-110) *)

Record Channels : Type := mkChannels {
  xChannel : ColorChannel;
  yChannel : ColorChannel;
  (** [undefined] when the difference is empty *)
  zChannel : option ColorChannel
}.

(** The [if (!xChannel) {switch (yChannel) ...} else if (!yChannel)
    {switch (xChannel) ...}] statement. *)
Definition resolveXY (x y : option ColorChannel) : ColorChannel * ColorChannel :=
  match x with
  | None =>
      match y with
      | Some red => (blue, red)
      | Some green => (blue, green)
      | Some blue => (red, blue)
      | _ => (blue, green)
      end
  | Some xc =>
      match y with
      | None =>
          match xc with
          | red => (red, green)
          | blue => (blue, red)
          | _ => (blue, green)
          end
      | Some yc => (xc, yc)
      end
  end.

Definition resolveChannels (x y : option ColorChannel) : Channels :=
  let '(xc, yc) := resolveXY x y in
  let xyChannels := newSet [xc; yc] in
  {| xChannel := xc;
     yChannel := yc;
     zChannel := hd_error (difference RGBSet xyChannels) |}.

(** ** Axis steps (source lines 70 and 116-122) *)

(** A JavaScript number is falsy when it is zero. *)
Definition falsy (q : Q) : bool := Qeq_bool q 0.

(** The destructuring default [xChannelStep = 1] followed by
    [if (!xChannelStep) xChannelStep = color.getChannelRange(xChannel).step]. *)
Definition resolveStep (given : option Q) (color : Color) (ch : ColorChannel) : Q :=
  let s := match given with Some s => s | None => 1 end in
  if falsy s then step (getChannelRange color ch) else s.

(** ** Numeric helpers of @react-aria/utils *)

Definition Qlt_bool (a b : Q) : bool := negb (Qle_bool b a).

(** Modelled from the spec: [clamp(v, lo, hi)] of @react-aria/utils is not
    part of the sources; "clamp input to [0,1]". *)
Definition clamp (v lo hi : Q) : Q := Qmin (Qmax v lo) hi.

(** Nearest integer, a tie going up. *)
Definition roundNearest (q : Q) : Z := Qfloor (q + (1 # 2)).

(** Modelled from the spec: [snapValueToStep(value, min, max, step)] of
    @react-aria/utils is not part of the sources; "snap to the nearest
    multiple of the axis step within range".  Steps are counted from the
    lower end of the range; a snapped value above the range falls back to
    the last step that fits. *)
Definition snapValueToStep (v min max stp : Q) : Q :=
  let snapped := min + inject_Z (roundNearest ((v - min) / stp)) * stp in
  if Qlt_bool snapped min then min
  else if Qlt_bool max snapped then min + inject_Z (Qfloor ((max - min) / stp)) * stp
  else snapped.

(** ** Hook cells and the object returned by one render *)

(** What React keeps for one mounted instance of the hook, between
    renders. *)
Record Hooks : Type := mkHooks {
  (** the [useControlledState] cell, in its uncontrolled mode *)
  stateColor : Color;
  (** [valueRef.current] *)
  valueRef : Color;
  (** the [useState(false)] cell behind [isDragging] *)
  draggingState : bool;
  (** [.current] of the object returned by [useRef(false)] on line 125 *)
  draggingRefCell : bool;
  (** a state setter has run since the last render *)
  renderPending : bool
}.

(** The object returned by one run of the hook body, together with the
    local variables its methods close over.  [isDraggingRef] is the local
    [let isDraggingRef = useRef(false).current]: a boolean of this render
    that [setDragging] assigns. *)
Record ColorAreaState : Type := mkState {
  channels : Channels;
  xChannelStep : Q;
  yChannelStep : Q;
  value : Color;
  xValue : Q;
  yValue : Q;
  isDragging : bool;
  isDraggingRef : bool
}.

(** Callbacks of the props that a method invokes. *)
Inductive Callback : Type :=
| OnChange (c : Color)
| OnChangeEnd (c : Color).

(** The hook body, lines 70-131: one render.  The choice of the initial
    color (lines 72-76) belongs to [useControlledState] and the parser;
    the render starts from the color cell. *)
Definition useColorAreaState (p : Props.t) (h : Hooks) : ColorAreaState * Hooks :=
  let color := stateColor h in
  let h' := {| stateColor := color; valueRef := color;
               draggingState := draggingState h;
               draggingRefCell := draggingRefCell h;
               renderPending := false |} in
  let ch := resolveChannels (Props.xChannel p) (Props.yChannel p) in
  ({| channels := ch;
      xChannelStep := resolveStep (Props.xChannelStep p) color (xChannel ch);
      yChannelStep := resolveStep (Props.yChannelStep p) color (yChannel ch);
      value := color;
      xValue := getChannelValue color (xChannel ch);
      yValue := getChannelValue color (yChannel ch);
      isDragging := draggingState h;
      isDraggingRef := draggingRefCell h |}, h').

(** First render of an instance whose color cell holds [c]. *)
Definition mount (p : Props.t) (c : Color) : ColorAreaState * Hooks :=
  useColorAreaState p
    {| stateColor := c; valueRef := c; draggingState := false;
       draggingRefCell := false; renderPending := false |}.

(** ** Methods of the returned object

    A method that ends in at most one [setColor] call is written as the
    function computing the argument of that call ([None]: [setColor] is
    not called). *)

Definition setXValue (s : ColorAreaState) (v : Q) : option Color :=
  Some (withChannelValue (value s) (xChannel (channels s)) v).

Definition setYValue (s : ColorAreaState) (v : Q) : option Color :=
  Some (withChannelValue (value s) (yChannel (channels s)) v).

(** The value the x axis is mapped to, before snapping (line 149). *)
Definition mappedX (s : ColorAreaState) (x : Q) : Q :=
  let r := getChannelRange (value s) (xChannel (channels s)) in
  minValue r + clamp x 0 1 * (maxValue r - minValue r).

(** The value the y axis is mapped to, before snapping (line 150). *)
Definition mappedY (s : ColorAreaState) (y : Q) : Q :=
  let r := getChannelRange (value s) (yChannel (channels s)) in
  minValue r + (1 - clamp y 0 1) * (maxValue r - minValue r).

Definition snappedX (s : ColorAreaState) (x : Q) : Q :=
  let r := getChannelRange (value s) (xChannel (channels s)) in
  snapValueToStep (mappedX s x) (minValue r) (maxValue r) (xChannelStep s).

Definition snappedY (s : ColorAreaState) (y : Q) : Q :=
  let r := getChannelRange (value s) (yChannel (channels s)) in
  snapValueToStep (mappedY s y) (minValue r) (maxValue r) (yChannelStep s).

(** Lines 146-165. *)
Definition setColorFromPoint (s : ColorAreaState) (x y : Q) : option Color :=
  let color := value s in
  let newXValue := mappedX s x in
  let newYValue := mappedY s y in
  let newColor : option Color :=
    if negb (Qeq_bool newXValue (xValue s))
    then Some (withChannelValue color (xChannel (channels s)) (snappedX s x))
    else None in
  let newColor : option Color :=
    if negb (Qeq_bool newYValue (yValue s))
    then Some (withChannelValue
                 (match newColor with Some c => c | None => color end)
                 (yChannel (channels s)) (snappedY s y))
    else newColor in
  newColor.

(** [minStepSize: number = 0] *)
Definition minStepSizeOr0 (m : option Q) : Q :=
  match m with Some q => q | None => 0 end.

(** Lines 173-179. *)
Definition incrementX (s : ColorAreaState) (minStepSize : option Q) : option Color :=
  let stp := Qmax (minStepSizeOr0 minStepSize) (xChannelStep s) in
  let maxV := maxValue (getChannelRange (value s) (xChannel (channels s))) in
  if Qlt_bool (xValue s) maxV
  then setXValue s (Qmin (xValue s + stp) maxV)
  else None.

(** Lines 180-186. *)
Definition incrementY (s : ColorAreaState) (minStepSize : option Q) : option Color :=
  let stp := Qmax (minStepSizeOr0 minStepSize) (yChannelStep s) in
  let maxV := maxValue (getChannelRange (value s) (yChannel (channels s))) in
  if Qlt_bool (yValue s) maxV
  then setYValue s (Qmin (yValue s + stp) maxV)
  else None.

(** Lines 187-193. *)
Definition decrementX (s : ColorAreaState) (minStepSize : option Q) : option Color :=
  let stp := Qmax (minStepSizeOr0 minStepSize) (xChannelStep s) in
  let minV := minValue (getChannelRange (value s) (xChannel (channels s))) in
  if Qlt_bool minV (xValue s)
  then setXValue s (Qmax (xValue s - stp) minV)
  else None.

(** Lines 194-200. *)
Definition decrementY (s : ColorAreaState) (minStepSize : option Q) : option Color :=
  let stp := Qmax (minStepSizeOr0 minStepSize) (yChannelStep s) in
  let minV := minValue (getChannelRange (value s) (yChannel (channels s))) in
  if Qlt_bool minV (yValue s)
  then setYValue s (Qmax (yValue s - stp) minV)
  else None.

(** Lines 201-211.  The assignment [isDraggingRef = isDragging] writes the
    local of this render; the call [setDragging(isDragging)] at the end
    is the [useState] setter.  Returns the updated closure, the updated
    cells and the callbacks invoked. *)
Definition setDragging (p : Props.t) (s : ColorAreaState) (h : Hooks) (dragging : bool)
  : ColorAreaState * Hooks * list Callback :=
  let wasDragging := isDraggingRef s in
  let s' := {| channels := channels s; xChannelStep := xChannelStep s;
               yChannelStep := yChannelStep s; value := value s;
               xValue := xValue s; yValue := yValue s;
               isDragging := isDragging s; isDraggingRef := dragging |} in
  let out := if Props.onChangeEnd p && negb dragging && wasDragging
             then [OnChangeEnd (valueRef h)] else [] in
  let h' := {| stateColor := stateColor h; valueRef := valueRef h;
               draggingState := dragging;
               draggingRefCell := draggingRefCell h;
               renderPending := renderPending h
                                || negb (Bool.eqb dragging (draggingState h)) |} in
  (s', h', out).

(** ** State setters and one round of React

    Modelled from the spec: [useControlledState] of @react-stately/utils
    is not part of the sources; it is taken in its uncontrolled mode: the
    setter stores the color, notifies the change callback "on every
    committed mutation" and schedules a render. *)
Definition setColor (p : Props.t) (h : Hooks) (c : Color) : Hooks * list Callback :=
  ({| stateColor := c; valueRef := valueRef h;
      draggingState := draggingState h;
      draggingRefCell := draggingRefCell h;
      renderPending := true |},
   if Props.onChange p then [OnChange c] else []).

Definition commit (p : Props.t) (h : Hooks) (oc : option Color) : Hooks * list Callback :=
  match oc with
  | Some c => setColor p h c
  | None => (h, [])
  end.

(** Lines 137-141, for a value that already is a [Color]. *)
Definition setValue (p : Props.t) (h : Hooks) (c : Color) : Hooks * list Callback :=
  setColor p
    {| stateColor := stateColor h; valueRef := c;
       draggingState := draggingState h;
       draggingRefCell := draggingRefCell h;
       renderPending := renderPending h |} c.

Inductive Method : Type :=
| SetValue (c : Color)
| SetXValue (v : Q)
| SetYValue (v : Q)
| SetColorFromPoint (x y : Q)
| IncrementX (minStepSize : option Q)
| IncrementY (minStepSize : option Q)
| DecrementX (minStepSize : option Q)
| DecrementY (minStepSize : option Q)
| SetDragging (dragging : bool).

(** A method call on the object [s] of the current render. *)
Definition invoke (p : Props.t) (m : Method) (s : ColorAreaState) (h : Hooks)
  : ColorAreaState * Hooks * list Callback :=
  let settle (oc : option Color) := let '(h', out) := commit p h oc in (s, h', out) in
  match m with
  | SetValue c => let '(h', out) := setValue p h c in (s, h', out)
  | SetXValue v => settle (setXValue s v)
  | SetYValue v => settle (setYValue s v)
  | SetColorFromPoint x y => settle (setColorFromPoint s x y)
  | IncrementX k => settle (incrementX s k)
  | IncrementY k => settle (incrementY s k)
  | DecrementX k => settle (decrementX s k)
  | DecrementY k => settle (decrementY s k)
  | SetDragging d => setDragging p s h d
  end.

(** Method calls made on one and the same returned object, with no render
    in between. *)
Fixpoint calls (p : Props.t) (ms : list Method) (s : ColorAreaState) (h : Hooks)
  : ColorAreaState * Hooks * list Callback :=
  match ms with
  | [] => (s, h, [])
  | m :: rest =>
      let '(s1, h1, out1) := invoke p m s h in
      let '(s2, h2, out2) := calls p rest s1 h1 in
      (s2, h2, out1 ++ out2)
  end.

(** One UI event: the handler calls a method, then React runs the hook
    body again when a state setter changed a cell. *)
Definition dispatch (p : Props.t) (m : Method) (s : ColorAreaState) (h : Hooks)
  : ColorAreaState * Hooks * list Callback :=
  let '(s1, h1, out) := invoke p m s h in
  if renderPending h1
  then let '(s2, h2) := useColorAreaState p h1 in (s2, h2, out)
  else (s1, h1, out).

(** A sequence of UI events. *)
Fixpoint events (p : Props.t) (ms : list Method) (s : ColorAreaState) (h : Hooks)
  : ColorAreaState * Hooks * list Callback :=
  match ms with
  | [] => (s, h, [])
  | m :: rest =>
      let '(s1, h1, out1) := dispatch p m s h in
      let '(s2, h2, out2) := events p rest s1 h1 in
      (s2, h2, out1 ++ out2)
  end.

(** The colors passed to the end-of-drag callback, in order. *)
Fixpoint changeEnds (out : list Callback) : list Color :=
  match out with
  | [] => []
  | OnChangeEnd c :: rest => c :: changeEnds rest
  | OnChange _ :: rest => changeEnds rest
  end.

(** ** Vocabulary of the properties *)

(** [c] is one of red, green, blue. *)
Definition isRGB (c : ColorChannel) : bool := has RGBSet c.

(** The members of {red, green, blue} other than [x] and [y]. *)
Definition remaining (x y : ColorChannel) : list ColorChannel :=
  filter (fun c => negb (ColorChannel_eqb c x) && negb (ColorChannel_eqb c y))
         [red; green; blue].

(** A valid disjoint triple: the axis channels differ and the third
    channel is the one and only remaining member of {red, green, blue}. *)
Definition validTriple (c : Channels) : Prop :=
  xChannel c <> yChannel c /\
  exists z, zChannel c = Some z /\ remaining (xChannel c) (yChannel c) = [z].

(** The caller supplied at most one axis channel, or two different
    members of {red, green, blue}. *)
Definition suppliedCompatibly (x y : option ColorChannel) : bool :=
  match x, y with
  | Some a, Some b => isRGB a && isRGB b && negb (ColorChannel_eqb a b)
  | _, _ => true
  end.

(** The lookup tables as the specification writes them: the pair
    [(xChannel, yChannel)] chosen from the one channel that is given. *)
Definition spec_fromY (y : ColorChannel) : ColorChannel * ColorChannel :=
  match y with
  | red => (blue, red)
  | green => (blue, green)
  | blue => (red, blue)
  | _ => (blue, green)
  end.

Definition spec_fromX (x : ColorChannel) : ColorChannel * ColorChannel :=
  match x with
  | red => (red, green)
  | blue => (blue, red)
  | _ => (blue, green)
  end.

(** The triple made of a pair and the remaining member of the RGB set. *)
Definition spec_triple (xy : ColorChannel * ColorChannel) : Channels :=
  {| xChannel := fst xy; yChannel := snd xy;
     zChannel := hd_error (remaining (fst xy) (snd xy)) |}.

(** A sample color: 8-bit red, green and blue (range [0,255], step 1) and
    alpha in [0,1] with step 1/100. *)
Definition rgbRange (ch : ColorChannel) : ChannelRange :=
  match ch with
  | alpha => mkRange 0 1 (1 # 100)
  | _ => mkRange 0 255 1
  end.

Definition rgba (r g b a : Q) : Color :=
  {| getChannelValue := fun k =>
       match k with
       | red => r | green => g | blue => b | alpha => a
       | _ => 0
       end;
     getChannelRange := rgbRange |}.

(** Props with nothing but the two callbacks. *)
Definition plainProps : Props.t :=
  {| Props.xChannel := None; Props.yChannel := None;
     Props.onChange := true; Props.onChangeEnd := true;
     Props.xChannelStep := None; Props.yChannelStep := None |}.

(** What a step up of channel [ch] by [stp] does, where [v] is the current
    value, [r] the range and [oc] the color handed to the setter ([None]:
    nothing happens): nothing at or above the maximum; otherwise the value
    becomes [min (v + stp) maxValue], which never exceeds the maximum and
    stays in the range when [v] was in it and [stp] is not negative. *)
Definition steppedUp (oc : option Color) (ch : ColorChannel)
    (v stp : Q) (r : ChannelRange) : Prop :=
  (maxValue r <= v -> oc = None) /\
  (v < maxValue r ->
   exists c, oc = Some c /\
     getChannelValue c ch = Qmin (v + stp) (maxValue r) /\
     getChannelValue c ch <= maxValue r /\
     (minValue r <= v -> 0 <= stp -> minValue r <= getChannelValue c ch)).

(** The mirror image for a step down. *)
Definition steppedDown (oc : option Color) (ch : ColorChannel)
    (v stp : Q) (r : ChannelRange) : Prop :=
  (v <= minValue r -> oc = None) /\
  (minValue r < v ->
   exists c, oc = Some c /\
     getChannelValue c ch = Qmax (v - stp) (minValue r) /\
     minValue r <= getChannelValue c ch /\
     (v <= maxValue r -> 0 <= stp -> getChannelValue c ch <= maxValue r)).

(** [q] is a whole number. *)
Definition isInteger (q : Q) : bool := Qeq_bool q (inject_Z (Qfloor q)).

(** [q] is a safe integer of JavaScript: a whole number between
    -(2^53 - 1) and 2^53 - 1.  A double holds every such number exactly,
    and a sum or difference of two of them that is again one of them is
    computed without rounding. *)
Definition safeInteger (q : Q) : bool :=
  isInteger q
  && Qle_bool (inject_Z (- 9007199254740991)) q
  && Qle_bool q (inject_Z 9007199254740991).

(** Props that ask for steps of -2 along x. *)
Definition negativeStepProps : Props.t :=
  {| Props.xChannel := None; Props.yChannel := None;
     Props.onChange := true; Props.onChangeEnd := true;
     Props.xChannelStep := Some (-2 # 1); Props.yChannelStep := None |}.

(** Props that ask for steps of 2 along x and give 0 along y. *)
Definition stepProps : Props.t :=
  {| Props.xChannel := None; Props.yChannel := None;
     Props.onChange := true; Props.onChangeEnd := true;
     Props.xChannelStep := Some 2; Props.yChannelStep := Some 0 |}.

(** ** The remaining methods of the returned object *)

(** Lines 166-172: the thumb as fractions of the two ranges, the y
    fraction upside down.  A range of width zero makes the source divide
    by zero; the properties below assume [minValue < maxValue]. *)
Definition getThumbPosition (s : ColorAreaState) : Q * Q :=
  let rx := getChannelRange (value s) (xChannel (channels s)) in
  let ry := getChannelRange (value s) (yChannel (channels s)) in
  let x := (xValue s - minValue rx) / (maxValue rx - minValue rx) in
  let y := 1 - (yValue s - minValue ry) / (maxValue ry - minValue ry) in
  (x, y).

(** Lines 213-215. *)
Definition getDisplayColor (s : ColorAreaState) : Color :=
  withChannelValue (value s) alpha 1.

(** Both axis values lie in the ranges of their channels. *)
Definition inRange (s : ColorAreaState) : Prop :=
  let rx := getChannelRange (value s) (xChannel (channels s)) in
  let ry := getChannelRange (value s) (yChannel (channels s)) in
  (minValue rx <= xValue s <= maxValue rx) /\
  (minValue ry <= yValue s <= maxValue ry).

(** Both axis ranges have a positive width. *)
Definition properRanges (s : ColorAreaState) : Prop :=
  let rx := getChannelRange (value s) (xChannel (channels s)) in
  let ry := getChannelRange (value s) (yChannel (channels s)) in
  minValue rx < maxValue rx /\ minValue ry < maxValue ry.

(** An increment or decrement whose minimum step size, when given, is not
    negative. *)
Definition steppingMethod (m : Method) : bool :=
  match m with
  | IncrementX k | IncrementY k | DecrementX k | DecrementY k =>
      Qle_bool 0 (minStepSizeOr0 k)
  | _ => false
  end.

(** No [setDragging(true)] arrives while the [isDragging] cell is already
    true; [dragging] is the cell before the first event. *)
Fixpoint dragsAlternate (dragging : bool) (ms : list Method) : bool :=
  match ms with
  | [] => true
  | SetDragging true :: rest => negb dragging && dragsAlternate true rest
  | SetDragging false :: rest => dragsAlternate false rest
  | _ :: rest => dragsAlternate dragging rest
  end.

(** The color of the last [setValue] call among [ms], [dflt] when there is
    none. *)
Fixpoint lastSetValue (ms : list Method) (dflt : Color) : Color :=
  match ms with
  | [] => dflt
  | SetValue c :: rest => lastSetValue rest c
  | _ :: rest => lastSetValue rest dflt
  end.

Definition isSetDragging (m : Method) : bool :=
  match m with
  | SetDragging _ => true
  | _ => false
  end.

End ColorArea.

(* ===================================================================== *)
(** * The submenu trigger *)
(* ===================================================================== *)

Module SubMenu.

Local Open Scope nat_scope.

(** [direction] of [useLocale()]. *)
Inductive Direction : Type := ltr | rtl.

(** [FocusStrategy] of @react-types/shared. *)
Inductive FocusStrategy : Type := first | last.

(** [pointerType] of a [PressEvent]. *)
Inductive PointerType : Type := mouse | pen | touch | keyboard | virtual.

(** What the hook does to its collaborators, in order. *)
Inductive Effect : Type :=
| CallOpen (focusStrategy : option FocusStrategy)
| CallClose
| CallCloseAll
| ContinuePropagation.

(** A timer of the platform: the handle returned by [setTimeout] and the
    instant at which it is due.  The hook schedules one kind of callback
    only, [() => onSubmenuOpen()]. *)
Record Timer : Type := mkTimer {
  handle : positive;
  due : nat
}.

(** One trigger instance with its collaborators.

    Modelled from the spec: [SubMenuTriggerState] of @react-stately/menu
    is not part of the sources.  It "supplies open(focusStrategy?),
    close(), closeAll(), and isOpen"; [chainOpen] stands for the rest of
    the menu chain (the root and all intermediate submenus), which
    [closeAll] closes together with this level. *)
Record World : Type := mkWorld {
  direction : Direction;
  (** the clock of the platform, in milliseconds *)
  now : nat;
  (** the next handle [setTimeout] hands out *)
  nextHandle : positive;
  (** the timers that are scheduled and not yet fired or cleared *)
  timers : list Timer;
  (** [openTimeout.current] *)
  openTimeout : option positive;
  isOpen : bool;
  focusStrategy : option FocusStrategy;
  chainOpen : bool;
  (** the effects so far, oldest first *)
  trace : list Effect
}.

Definition setTimers (w : World) (next : positive) (ts : list Timer) : World :=
  {| direction := direction w; now := now w; nextHandle := next; timers := ts;
     openTimeout := openTimeout w; isOpen := isOpen w;
     focusStrategy := focusStrategy w; chainOpen := chainOpen w;
     trace := trace w |}.

Definition setOpenTimeout (w : World) (t : option positive) : World :=
  {| direction := direction w; now := now w; nextHandle := nextHandle w;
     timers := timers w; openTimeout := t; isOpen := isOpen w;
     focusStrategy := focusStrategy w; chainOpen := chainOpen w;
     trace := trace w |}.

Definition emit (w : World) (e : Effect) : World :=
  {| direction := direction w; now := now w; nextHandle := nextHandle w;
     timers := timers w; openTimeout := openTimeout w; isOpen := isOpen w;
     focusStrategy := focusStrategy w; chainOpen := chainOpen w;
     trace := trace w ++ [e] |}.

(** ** The platform timers *)

(** [setTimeout(callback, delay)]: a fresh handle, due [delay] from now. *)
Definition setTimeout (w : World) (delay : nat) : positive * World :=
  let h := nextHandle w in
  (h, setTimers w (Pos.succ h) (timers w ++ [mkTimer h (now w + delay)])).

(** [clearTimeout(handle)]: no effect when no such timer is scheduled. *)
Definition clearTimeout (w : World) (h : positive) : World :=
  setTimers w (nextHandle w)
    (filter (fun t => negb (Pos.eqb (handle t) h)) (timers w)).

(** ** The menu collaborator *)

Definition stateOpen (w : World) (fs : option FocusStrategy) : World :=
  {| direction := direction w; now := now w; nextHandle := nextHandle w;
     timers := timers w; openTimeout := openTimeout w; isOpen := true;
     focusStrategy := fs; chainOpen := chainOpen w;
     trace := trace w ++ [CallOpen fs] |}.

Definition stateClose (w : World) : World :=
  {| direction := direction w; now := now w; nextHandle := nextHandle w;
     timers := timers w; openTimeout := openTimeout w; isOpen := false;
     focusStrategy := None; chainOpen := chainOpen w;
     trace := trace w ++ [CallClose] |}.

Definition stateCloseAll (w : World) : World :=
  {| direction := direction w; now := now w; nextHandle := nextHandle w;
     timers := timers w; openTimeout := openTimeout w; isOpen := false;
     focusStrategy := None; chainOpen := false;
     trace := trace w ++ [CallCloseAll] |}.

(** ** The hook (useSubMenuTrigger.ts) *)

(** Lines 50-55. *)
Definition cancelOpenTimeout (w : World) : World :=
  match openTimeout w with
  | Some h => setOpenTimeout (clearTimeout w h) None
  | None => w
  end.

(** Lines 57-60. *)
Definition onSubmenuOpen (w : World) (fs : option FocusStrategy) : World :=
  stateOpen (cancelOpenTimeout w) fs.

(** Lines 62-65. *)
Definition onSubMenuClose (w : World) : World :=
  stateClose (cancelOpenTimeout w).

(** The cleanup of the layout effect, lines 67-71. *)
Definition unmount (w : World) : World := cancelOpenTimeout w.

(** [onKeyDown] of [subMenuKeyboardProps], lines 79-98.  In the
    ['ArrowRight'] case the statement [onSubMenuClose;] names the function
    and does not call it. *)
Definition subMenuOnKeyDown (w : World) (key : string) : World :=
  if String.eqb key "ArrowLeft" then
    match direction w with
    | ltr => onSubMenuClose w
    | rtl => w
    end
  else if String.eqb key "ArrowRight" then
    match direction w with
    | rtl => w
    | ltr => w
    end
  else if String.eqb key "Escape" then stateCloseAll w
  else emit w ContinuePropagation.

(** [onKeyDown] of [subMenuTriggerKeyboardProps], lines 104-119: the
    ['ArrowRight'] case falls through to ['ArrowLeft'], which falls
    through to [default]. *)
Definition triggerOnKeyDown (w : World) (key : string) : World :=
  let caseArrowLeft (w : World) :=
    match direction w with
    | rtl => onSubmenuOpen w (Some first)
    | ltr => w
    end in
  let caseDefault (w : World) := emit w ContinuePropagation in
  if String.eqb key "ArrowRight" then
    let w1 := match direction w with
              | ltr => onSubmenuOpen w (Some first)
              | rtl => w
              end in
    caseDefault (caseArrowLeft w1)
  else if String.eqb key "ArrowLeft" then caseDefault (caseArrowLeft w)
  else caseDefault w.

(** Lines 123-128. *)
Definition onPressStart (w : World) (pointerType : PointerType) : World :=
  match pointerType with
  | virtual | keyboard => onSubmenuOpen w (Some first)
  | _ => w
  end.

(** Lines 130-134. *)
Definition onPress (w : World) (pointerType : PointerType) : World :=
  match pointerType with
  | touch => onSubmenuOpen w None
  | _ => w
  end.

(** Lines 137-148. *)
Definition onHoverChange (w : World) (isHovered : bool) : World :=
  if isHovered && negb (isOpen w) then
    match openTimeout w with
    | None => let '(h, w') := setTimeout w 200 in setOpenTimeout w' (Some h)
    | Some _ => w
    end
  else if negb isHovered then cancelOpenTimeout w
  else w.

(** ** The event loop *)

(** The first scheduled timer that is due, and the others. *)
Fixpoint takeDue (t : nat) (ts : list Timer) : option (Timer * list Timer) :=
  match ts with
  | [] => None
  | x :: rest =>
      if due x <=? t then Some (x, rest)
      else match takeDue t rest with
           | Some (y, rest') => Some (y, x :: rest')
           | None => None
           end
  end.

(** Fire the due timers one after the other; each one leaves the
    schedule and runs its callback [onSubmenuOpen()].  [n] bounds the
    number of timers fired. *)
Fixpoint fireDue (n : nat) (w : World) : World :=
  match n with
  | O => w
  | S k =>
      match takeDue (now w) (timers w) with
      | Some (_, rest) =>
          fireDue k (onSubmenuOpen (setTimers w (nextHandle w) rest) None)
      | None => w
      end
  end.

(** [ms] milliseconds pass with no other event. *)
Definition advance (w : World) (ms : nat) : World :=
  let w' := {| direction := direction w; now := now w + ms;
               nextHandle := nextHandle w; timers := timers w;
               openTimeout := openTimeout w; isOpen := isOpen w;
               focusStrategy := focusStrategy w; chainOpen := chainOpen w;
               trace := trace w |} in
  fireDue (List.length (timers w')) w'.

Inductive Event : Type :=
| HoverChange (isHovered : bool)
| PressStart (pointerType : PointerType)
| Press (pointerType : PointerType)
| TriggerKeyDown (key : string)
| SubMenuKeyDown (key : string)
| Unmount
| Advance (ms : nat).

Definition step (w : World) (e : Event) : World :=
  match e with
  | HoverChange b => onHoverChange w b
  | PressStart pt => onPressStart w pt
  | Press pt => onPress w pt
  | TriggerKeyDown k => triggerOnKeyDown w k
  | SubMenuKeyDown k => subMenuOnKeyDown w k
  | Unmount => unmount w
  | Advance ms => advance w ms
  end.

Definition run (w : World) (es : list Event) : World := fold_left step es w.

(** A freshly mounted trigger: nothing scheduled, nothing done yet. *)
Definition mounted (d : Direction) (open chain : bool) : World :=
  {| direction := d; now := 0; nextHandle := 1%positive; timers := [];
     openTimeout := None; isOpen := open; focusStrategy := None;
     chainOpen := chain; trace := [] |}.

(** The number of [state.open] calls in a trace. *)
Fixpoint opens (tr : list Effect) : nat :=
  match tr with
  | [] => 0
  | CallOpen _ :: rest => S (opens rest)
  | _ :: rest => opens rest
  end.

(** ** Vocabulary of the properties *)

(** The hook knows every scheduled timer: the schedule is empty when
    [openTimeout.current] is empty and holds exactly the timer of that
    handle otherwise. *)
Definition timersTracked (w : World) : Prop :=
  match openTimeout w with
  | Some h => exists d, timers w = [mkTimer h d]
  | None => timers w = []
  end.

(** The events that the specification lists as leaving the pending-open
    state: hover-exit, the immediate keyboard or touch open, close, and
    unmount. *)
Definition leavesPendingOpen (d : Direction) (e : Event) : bool :=
  match e with
  | HoverChange isHovered => negb isHovered
  | PressStart virtual | PressStart keyboard => true
  | PressStart _ => false
  | Press touch => true
  | Press _ => false
  | TriggerKeyDown k =>
      match d with
      | ltr => String.eqb k "ArrowRight"
      | rtl => String.eqb k "ArrowLeft"
      end
  | SubMenuKeyDown k =>
      match d with
      | ltr => String.eqb k "ArrowLeft"
      | rtl => false
      end
  | Unmount => true
  | Advance _ => false
  end.

(** What a mouse can do to the trigger without the help of time: hover in
    and out, press-start and press with pointer type mouse. *)
Definition mouseEvent (e : Event) : bool :=
  match e with
  | HoverChange _ => true
  | PressStart mouse | Press mouse => true
  | _ => false
  end.

(** The events whose handler calls [onSubmenuOpen] at once: press-start
    of type virtual or keyboard, press of type touch, ArrowRight on the
    trigger (in either direction, by the fall-through) and ArrowLeft on
    the trigger under RTL. *)
Definition opensAtOnce (d : Direction) (e : Event) : bool :=
  match e with
  | PressStart virtual | PressStart keyboard => true
  | Press touch => true
  | TriggerKeyDown k =>
      String.eqb k "ArrowRight" ||
      match d with
      | rtl => String.eqb k "ArrowLeft"
      | ltr => false
      end
  | _ => false
  end.

(** While a timer is scheduled the submenu is closed. *)
Definition pendingWhileClosed (w : World) : Prop :=
  timers w <> [] -> isOpen w = false.

End SubMenu.

(* ===================================================================== *)
(** * The documentation search: grouping of hits (DocSearch.js) *)
(* ===================================================================== *)

Module DocSearch.

Local Open Scope nat_scope.

(** The accumulator object of [groupBy]: its own properties, each an
    array, looked up by name, and its prototype.  [prototype] is [None]
    for [Object.prototype], which the object literal starts with, and
    [Some a] once an array [a] has taken its place. *)
Record Accumulator (A : Type) : Type := mkAccumulator {
  own : string -> option (list A);
  prototype : option (list A)
}.

Arguments mkAccumulator {A}.
Arguments own {A}.
Arguments prototype {A}.

(** [{}] *)
Definition emptyObject {A : Type} : Accumulator A :=
  {| own := fun _ => None; prototype := None |}.

(** [Object.prototype.hasOwnProperty.call(accumulator, key)] *)
Definition hasOwnProperty {A : Type} (o : Accumulator A) (key : string) : bool :=
  match own o key with
  | Some _ => true
  | None => false
  end.

(** [accumulator[key]] where it yields an array: an own property, or, for
    the name __proto__, which is an accessor inherited from
    [Object.prototype], the prototype when that is an array.  ([groupBy]
    reads no other inherited name: it assigns every other name before it
    reads it.) *)
Definition getProp {A : Type} (o : Accumulator A) (key : string) : option (list A) :=
  match own o key with
  | Some v => Some v
  | None => if String.eqb key "__proto__" then prototype o else None
  end.

(** [accumulator[key] = v] for an array [v]: the name __proto__ runs the
    inherited setter, which replaces the prototype and creates no own
    property; every other name becomes, or stays, an own property. *)
Definition setProp {A : Type} (o : Accumulator A) (key : string) (v : list A)
  : Accumulator A :=
  if String.eqb key "__proto__"
  then {| own := own o; prototype := Some v |}
  else {| own := fun k => if String.eqb k key then Some v else own o k;
          prototype := prototype o |}.

(** The callback of the [reduce] in [groupBy], lines 296-310.  The array
    that [push] extends is the one just read, so the extended array is
    stored where it was read from. *)
Definition groupStep {A : Type} (predicate : A -> string)
    (accumulator : Accumulator A) (item : A) : Accumulator A :=
  let key := predicate item in
  let accumulator :=
    if hasOwnProperty accumulator key then accumulator
    else setProp accumulator key [] in
  match getProp accumulator key with
  | Some group =>
      if List.length group <? 21
      then setProp accumulator key (group ++ [item])
      else accumulator
  | None => accumulator
  end.

(** [groupBy(values, predicate)], lines 295-311. *)
Definition groupBy {A : Type} (values : list A) (predicate : A -> string)
  : Accumulator A :=
  fold_left (groupStep predicate) values emptyObject.

(** The items of [values] that [predicate] sends to [key], in order. *)
Definition withKey {A : Type} (predicate : A -> string) (key : string)
    (values : list A) : list A :=
  filter (fun v => String.eqb (predicate v) key) values.

End DocSearch.

(* ===================================================================== *)
(** * Properties of the color-area model *)
(* ===================================================================== *)

Module ColorAreaFacts.
Import ColorArea.

Lemma ColorChannel_eqb_eq (a b : ColorChannel) :
  ColorChannel_eqb a b = true <-> a = b.
Proof. split; [destruct a, b; simpl; congruence | intros ->; destruct b; reflexivity]. Qed.

Lemma ColorChannel_eqb_refl (a : ColorChannel) : ColorChannel_eqb a a = true.
Proof. destruct a; reflexivity. Qed.


(** ** Channel resolution *)

(** C2, as stated, fails: when the caller supplies the same channel for
    both axes the resolved axis channels are equal. *)
Lemma resolveChannels_same_axis_twice :
  ~ (forall x y : option ColorChannel, validTriple (resolveChannels x y)).
Proof.
  intros H. destruct (H (Some red) (Some red)) as [Hne _].
  apply Hne. reflexivity.
Qed.

(** C2 (amended): channel resolution never rejects its input, it always
    yields a z channel taken from {red, green, blue}; and whenever the
    caller supplies at most one axis channel, or two different members of
    {red, green, blue}, the resolved channels form a valid disjoint
    triple: xChannel differs from yChannel and zChannel is the unique
    remaining member of {red, green, blue}. *)
Theorem resolveChannels_valid :
  (forall x y, exists z,
      zChannel (resolveChannels x y) = Some z /\ isRGB z = true) /\
  (forall x y, suppliedCompatibly x y = true ->
      validTriple (resolveChannels x y)).
Proof.
  split.
  - intros [[]|] [[]|]; eexists; split; reflexivity.
  - intros [[]|] [[]|] H; try discriminate H;
      (split; [discriminate | eexists; split; reflexivity]).
Qed.

Lemma resolveChannels_valid_witness :
  validTriple (resolveChannels None (Some red)).
Proof. apply (proj2 resolveChannels_valid). reflexivity. Defined.

(** C8: channel resolution is the fixed lookup.  With xChannel absent the
    pair comes from the table red->blue, green->blue, blue->red,
    other->(x:blue, y:green); with yChannel absent and xChannel given it
    comes from the table red->green, blue->red, other->(x:blue, y:green);
    zChannel is the remaining member of {red, green, blue}.  In
    particular xChannel unset with yChannel = red resolves to
    xChannel = blue and zChannel = green. *)
Theorem resolveChannels_lookup :
  (forall y, resolveChannels None (Some y) = spec_triple (spec_fromY y)) /\
  resolveChannels None None = spec_triple (blue, green) /\
  (forall x, resolveChannels (Some x) None = spec_triple (spec_fromX x)) /\
  (forall x y, x = None \/ y = None -> validTriple (resolveChannels x y)) /\
  xChannel (resolveChannels None (Some red)) = blue /\
  zChannel (resolveChannels None (Some red)) = Some green.
Proof.
  repeat split; try (intros []; reflexivity); try discriminate.
  - destruct H as [-> | ->].
    + destruct y as [[]|]; discriminate.
    + destruct x as [[]|]; discriminate.
  - destruct H as [-> | ->].
    + destruct y as [[]|]; eexists; split; reflexivity.
    + destruct x as [[]|]; eexists; split; reflexivity.
Qed.

Lemma resolveChannels_lookup_witness :
  validTriple (resolveChannels (Some blue) None).
Proof.
  apply (proj1 (proj2 (proj2 (proj2 resolveChannels_lookup)))).
  right. reflexivity.
Defined.

(** ** Axis steps *)

(** C9, as stated, fails: with no xChannelStep given the axis step is 1
    even where the channel's own step is 1/100 (the alpha channel of the
    sample color). *)
Lemma step_default_is_not_intrinsic :
  ~ (forall (p : Props.t) (c : Color),
        Props.xChannelStep p = None ->
        let s := fst (mount p c) in
        xChannelStep s == step (getChannelRange (value s) (xChannel (channels s)))).
Proof.
  intros H.
  specialize (H {| Props.xChannel := Some alpha; Props.yChannel := Some red;
                   Props.onChange := false; Props.onChangeEnd := false;
                   Props.xChannelStep := None; Props.yChannelStep := None |}
                (rgba 0 0 0 1) eq_refl).
  vm_compute in H. discriminate H.
Qed.

(** C9 (amended): when xChannelStep (respectively yChannelStep) is not
    provided the axis step is 1; the channel's intrinsic step, as
    reported by the color's channel range, is used when the step is
    provided as 0; any other provided step is used as given. *)
Theorem axis_step_defaults (p : Props.t) (h : Hooks) :
  let s := fst (useColorAreaState p h) in
  let xr := getChannelRange (value s) (xChannel (channels s)) in
  let yr := getChannelRange (value s) (yChannel (channels s)) in
  (Props.xChannelStep p = None -> xChannelStep s = 1) /\
  (Props.yChannelStep p = None -> yChannelStep s = 1) /\
  (forall q, Props.xChannelStep p = Some q ->
     (q == 0 -> xChannelStep s = step xr) /\ (~ q == 0 -> xChannelStep s = q)) /\
  (forall q, Props.yChannelStep p = Some q ->
     (q == 0 -> yChannelStep s = step yr) /\ (~ q == 0 -> yChannelStep s = q)).
Proof.
  simpl. unfold resolveStep, falsy.
  repeat split; intros.
  - rewrite H. reflexivity.
  - rewrite H. reflexivity.
  - rewrite H. apply Qeq_bool_iff in H0. rewrite H0. reflexivity.
  - rewrite H. destruct (Qeq_bool q 0) eqn:E; [|reflexivity].
    apply Qeq_bool_iff in E. contradiction.
  - rewrite H. apply Qeq_bool_iff in H0. rewrite H0. reflexivity.
  - rewrite H. destruct (Qeq_bool q 0) eqn:E; [|reflexivity].
    apply Qeq_bool_iff in E. contradiction.
Qed.

Lemma axis_step_defaults_witness :
  xChannelStep (fst (mount plainProps (rgba 0 0 0 1))) = 1 /\
  yChannelStep (fst (mount stepProps (rgba 0 0 0 1))) = 1 /\
  xChannelStep (fst (mount stepProps (rgba 0 0 0 1))) = 2.
Proof.
  split; [|split].
  - apply (proj1 (axis_step_defaults plainProps
                    {| stateColor := rgba 0 0 0 1; valueRef := rgba 0 0 0 1;
                       draggingState := false; draggingRefCell := false;
                       renderPending := false |})).
    reflexivity.
  - apply (proj1 (proj2 (proj2 (proj2 (axis_step_defaults stepProps
                    {| stateColor := rgba 0 0 0 1; valueRef := rgba 0 0 0 1;
                       draggingState := false; draggingRefCell := false;
                       renderPending := false |}))) 0 eq_refl)).
    reflexivity.
  - apply (proj2 (proj1 (proj2 (proj2 (axis_step_defaults stepProps
                    {| stateColor := rgba 0 0 0 1; valueRef := rgba 0 0 0 1;
                       draggingState := false; draggingRefCell := false;
                       renderPending := false |}))) 2 eq_refl)).
    intros H. discriminate H.
Defined.

(** ** Numbers *)

Lemma Qlt_bool_iff (a b : Q) : Qlt_bool a b = true <-> a < b.
Proof.
  unfold Qlt_bool. rewrite negb_true_iff. split.
  - intros H. apply Qnot_le_lt. intros Hle.
    apply Qle_bool_iff in Hle. congruence.
  - intros H. destruct (Qle_bool b a) eqn:E; [|reflexivity].
    apply Qle_bool_iff in E. lra.
Qed.

Lemma Qlt_bool_false (a b : Q) : Qlt_bool a b = false <-> b <= a.
Proof.
  split.
  - intros H. apply Qnot_lt_le. intros Hlt.
    apply Qlt_bool_iff in Hlt. congruence.
  - intros H. destruct (Qlt_bool a b) eqn:E; [|reflexivity].
    apply Qlt_bool_iff in E. lra.
Qed.



(** ** Pointer position to channel values *)






(** ** Stepping along an axis *)

Lemma incrementX_steps (p : Props.t) (h : Hooks) (m : option Q) :
  let s := fst (useColorAreaState p h) in
  let xc := xChannel (channels s) in
  let xr := getChannelRange (value s) xc in
  let k := match m with Some q => q | None => 0 end in
  (maxValue xr <= xValue s -> incrementX s m = None) /\
  (xValue s < maxValue xr ->
   exists c, incrementX s m = Some c /\
     getChannelValue c xc
     = Qmin (xValue s + Qmax k (xChannelStep s)) (maxValue xr) /\
     getChannelValue c xc <= maxValue xr /\
     (minValue xr <= xValue s -> 0 <= Qmax k (xChannelStep s) ->
      minValue xr <= getChannelValue c xc)).
Proof.
  intros s xc xr k. unfold incrementX.
  change (minStepSizeOr0 m) with k. fold xc. fold xr. split; intros Hv.
  - apply Qlt_bool_false in Hv. rewrite Hv. reflexivity.
  - apply Qlt_bool_iff in Hv. rewrite Hv.
    eexists. split; [reflexivity|]. cbn [setXValue withChannelValue getChannelValue].
    fold xc. rewrite ColorChannel_eqb_refl.
    split; [reflexivity|].
    pose proof (Q.le_min_r (xValue s + Qmax k (xChannelStep s)) (maxValue xr)).
    split; [assumption|]. intros.
    apply Q.min_glb; [lra|]. apply Qlt_bool_iff in Hv. lra.
Qed.

Lemma incrementY_steps (p : Props.t) (h : Hooks) (m : option Q) :
  let s := fst (useColorAreaState p h) in
  let yc := yChannel (channels s) in
  let yr := getChannelRange (value s) yc in
  let k := match m with Some q => q | None => 0 end in
  (maxValue yr <= yValue s -> incrementY s m = None) /\
  (yValue s < maxValue yr ->
   exists c, incrementY s m = Some c /\
     getChannelValue c yc
     = Qmin (yValue s + Qmax k (yChannelStep s)) (maxValue yr) /\
     getChannelValue c yc <= maxValue yr /\
     (minValue yr <= yValue s -> 0 <= Qmax k (yChannelStep s) ->
      minValue yr <= getChannelValue c yc)).
Proof.
  intros s yc yr k. unfold incrementY.
  change (minStepSizeOr0 m) with k. fold yc. fold yr. split; intros Hv.
  - apply Qlt_bool_false in Hv. rewrite Hv. reflexivity.
  - apply Qlt_bool_iff in Hv. rewrite Hv.
    eexists. split; [reflexivity|]. cbn [setYValue withChannelValue getChannelValue].
    fold yc. rewrite ColorChannel_eqb_refl.
    split; [reflexivity|].
    pose proof (Q.le_min_r (yValue s + Qmax k (yChannelStep s)) (maxValue yr)).
    split; [assumption|]. intros.
    apply Q.min_glb; [lra|]. apply Qlt_bool_iff in Hv. lra.
Qed.

Lemma decrementX_steps (p : Props.t) (h : Hooks) (m : option Q) :
  let s := fst (useColorAreaState p h) in
  let xc := xChannel (channels s) in
  let xr := getChannelRange (value s) xc in
  let k := match m with Some q => q | None => 0 end in
  (xValue s <= minValue xr -> decrementX s m = None) /\
  (minValue xr < xValue s ->
   exists c, decrementX s m = Some c /\
     getChannelValue c xc
     = Qmax (xValue s - Qmax k (xChannelStep s)) (minValue xr) /\
     minValue xr <= getChannelValue c xc /\
     (xValue s <= maxValue xr -> 0 <= Qmax k (xChannelStep s) ->
      getChannelValue c xc <= maxValue xr)).
Proof.
  intros s xc xr k. unfold decrementX.
  change (minStepSizeOr0 m) with k. fold xc. fold xr. split; intros Hv.
  - apply Qlt_bool_false in Hv. rewrite Hv. reflexivity.
  - apply Qlt_bool_iff in Hv. rewrite Hv.
    eexists. split; [reflexivity|]. cbn [setXValue withChannelValue getChannelValue].
    fold xc. rewrite ColorChannel_eqb_refl.
    split; [reflexivity|].
    pose proof (Q.le_max_r (xValue s - Qmax k (xChannelStep s)) (minValue xr)).
    split; [assumption|]. intros.
    apply Q.max_lub; [lra|]. apply Qlt_bool_iff in Hv. lra.
Qed.

Lemma decrementY_steps (p : Props.t) (h : Hooks) (m : option Q) :
  let s := fst (useColorAreaState p h) in
  let yc := yChannel (channels s) in
  let yr := getChannelRange (value s) yc in
  let k := match m with Some q => q | None => 0 end in
  (yValue s <= minValue yr -> decrementY s m = None) /\
  (minValue yr < yValue s ->
   exists c, decrementY s m = Some c /\
     getChannelValue c yc
     = Qmax (yValue s - Qmax k (yChannelStep s)) (minValue yr) /\
     minValue yr <= getChannelValue c yc /\
     (yValue s <= maxValue yr -> 0 <= Qmax k (yChannelStep s) ->
      getChannelValue c yc <= maxValue yr)).
Proof.
  intros s yc yr k. unfold decrementY.
  change (minStepSizeOr0 m) with k. fold yc. fold yr. split; intros Hv.
  - apply Qlt_bool_false in Hv. rewrite Hv. reflexivity.
  - apply Qlt_bool_iff in Hv. rewrite Hv.
    eexists. split; [reflexivity|]. cbn [setYValue withChannelValue getChannelValue].
    fold yc. rewrite ColorChannel_eqb_refl.
    split; [reflexivity|].
    pose proof (Q.le_max_r (yValue s - Qmax k (yChannelStep s)) (minValue yr)).
    split; [assumption|]. intros.
    apply Q.max_lub; [lra|]. apply Qlt_bool_iff in Hv. lra.
Qed.

(** C6, as stated, fails: the result is clamped on the side of travel
    only.  With an axis step of -2 and a minimum step size of -5 the
    applied step is max(-5, -2) = -2, and incrementX at blue = 1, a value
    inside [0,255], hands min(1 + -2, 255) = -1 to the setter. *)
Lemma increment_leaves_range_with_negative_step :
  ~ (forall (p : Props.t) (c : Color) (m : option Q),
        let s := fst (mount p c) in
        let xc := xChannel (channels s) in
        let xr := getChannelRange (value s) xc in
        forall c', incrementX s m = Some c' ->
                   minValue xr <= getChannelValue c' xc <= maxValue xr).
Proof.
  intros H.
  specialize (H negativeStepProps (rgba 0 0 1 1) (Some (-5 # 1))).
  cbv zeta in H.
  destruct (H _ eq_refl) as [Hlo _].
  vm_compute in Hlo. apply Hlo. reflexivity.
Qed.

(** C6 (amended): for every call incrementX/incrementY/decrementX/
    decrementY(minStepSize), with minStepSize taken as 0 when it is not
    given, the applied step is max(minStepSize, axisStep); the call does
    nothing when the current value is at or beyond the boundary in the
    requested direction (the strict comparison comes before the step);
    otherwise the new channel value is min(value + step, maxValue),
    respectively max(value - step, minValue), so it never passes the
    boundary in the direction of travel, and it lies in
    [minValue, maxValue] whenever the current value does and the applied
    step is not negative. *)
Theorem increment_decrement_clamped (p : Props.t) (h : Hooks) (m : option Q) :
  let s := fst (useColorAreaState p h) in
  let xc := xChannel (channels s) in
  let yc := yChannel (channels s) in
  let xr := getChannelRange (value s) xc in
  let yr := getChannelRange (value s) yc in
  let k := match m with Some minStepSize => minStepSize | None => 0 end in
  steppedUp (incrementX s m) xc (xValue s) (Qmax k (xChannelStep s)) xr /\
  steppedUp (incrementY s m) yc (yValue s) (Qmax k (yChannelStep s)) yr /\
  steppedDown (decrementX s m) xc (xValue s) (Qmax k (xChannelStep s)) xr /\
  steppedDown (decrementY s m) yc (yValue s) (Qmax k (yChannelStep s)) yr.
Proof.
  cbv zeta. unfold steppedUp, steppedDown.
  split; [exact (incrementX_steps p h m)|].
  split; [exact (incrementY_steps p h m)|].
  split; [exact (decrementX_steps p h m)|exact (decrementY_steps p h m)].
Qed.

Lemma increment_decrement_clamped_witness :
  let h := snd (mount stepProps (rgba 0 255 100 1)) in
  let s := fst (useColorAreaState stepProps h) in
  (exists c, incrementX s (Some 10) = Some c /\ getChannelValue c blue == 110
             /\ 0 <= getChannelValue c blue) /\
  (exists c, incrementX s None = Some c /\ getChannelValue c blue == 102) /\
  (exists c, incrementX s (Some 1) = Some c /\ getChannelValue c blue == 102) /\
  (exists c, incrementX s (Some 200) = Some c /\ getChannelValue c blue == 255) /\
  incrementY s None = None /\
  (exists c, decrementY s None = Some c /\ getChannelValue c green == 254) /\
  (exists c, decrementX s (Some 10) = Some c /\ getChannelValue c blue == 90
             /\ getChannelValue c blue <= 255).
Proof.
  intros h s.
  destruct (increment_decrement_clamped stepProps h (Some 10)) as (Hi10 & _ & Hd10 & _).
  destruct (increment_decrement_clamped stepProps h None) as (Hi0 & Hiy & _ & Hdy).
  destruct (increment_decrement_clamped stepProps h (Some 1)) as (Hi1 & _).
  destruct (increment_decrement_clamped stepProps h (Some 200)) as (Hi200 & _).
  repeat apply conj.
  - destruct (proj2 Hi10) as (c & Hc & Hv & _ & Hin).
    + vm_compute. reflexivity.
    + exists c. split; [exact Hc|].
      assert (E : getChannelValue c blue = Qmin (100 + Qmax 10 2) 255) by exact Hv.
      split; [rewrite E; vm_compute; reflexivity|].
      apply Hin; vm_compute; discriminate.
  - destruct (proj2 Hi0) as (c & Hc & Hv & _).
    + vm_compute. reflexivity.
    + exists c. split; [exact Hc|].
      assert (E : getChannelValue c blue = Qmin (100 + Qmax 0 2) 255) by exact Hv.
      rewrite E. vm_compute. reflexivity.
  - destruct (proj2 Hi1) as (c & Hc & Hv & _).
    + vm_compute. reflexivity.
    + exists c. split; [exact Hc|].
      assert (E : getChannelValue c blue = Qmin (100 + Qmax 1 2) 255) by exact Hv.
      rewrite E. vm_compute. reflexivity.
  - destruct (proj2 Hi200) as (c & Hc & Hv & _).
    + vm_compute. reflexivity.
    + exists c. split; [exact Hc|].
      assert (E : getChannelValue c blue = Qmin (100 + Qmax 200 2) 255) by exact Hv.
      rewrite E. vm_compute. reflexivity.
  - apply (proj1 Hiy). vm_compute. discriminate.
  - destruct (proj2 Hdy) as (c & Hc & Hv & _).
    + vm_compute. reflexivity.
    + exists c. split; [exact Hc|].
      assert (E : getChannelValue c green = Qmax (255 - Qmax 0 1) 0) by exact Hv.
      rewrite E. vm_compute. reflexivity.
  - destruct (proj2 Hd10) as (c & Hc & Hv & _ & Hin).
    + vm_compute. reflexivity.
    + exists c. split; [exact Hc|].
      assert (E : getChannelValue c blue = Qmax (100 - Qmax 10 2) 0) by exact Hv.
      split; [rewrite E; vm_compute; reflexivity|].
      apply Hin; vm_compute; discriminate.
Defined.

(** ** A step up followed by a step down *)

Lemma dispatch_IncrementX (p : Props.t) (s : ColorAreaState) (h : Hooks) (m : option Q) :
  dispatch p (IncrementX m) s h =
  match incrementX s m with
  | Some c => let r := useColorAreaState p (fst (setColor p h c)) in
              (fst r, snd r, snd (setColor p h c))
  | None => if renderPending h
            then let r := useColorAreaState p h in (fst r, snd r, [])
            else (s, h, [])
  end.
Proof.
  unfold dispatch, invoke. destruct (incrementX s m); cbn.
  - reflexivity.
  - destruct (renderPending h); reflexivity.
Qed.

Lemma dispatch_DecrementX (p : Props.t) (s : ColorAreaState) (h : Hooks) (m : option Q) :
  dispatch p (DecrementX m) s h =
  match decrementX s m with
  | Some c => let r := useColorAreaState p (fst (setColor p h c)) in
              (fst r, snd r, snd (setColor p h c))
  | None => if renderPending h
            then let r := useColorAreaState p h in (fst r, snd r, [])
            else (s, h, [])
  end.
Proof.
  unfold dispatch, invoke. destruct (decrementX s m); cbn.
  - reflexivity.
  - destruct (renderPending h); reflexivity.
Qed.

Lemma events_two (p : Props.t) (a b : Method) (s : ColorAreaState) (h : Hooks) :
  fst (events p [a; b] s h) =
  fst (dispatch p b (fst (fst (dispatch p a s h))) (snd (fst (dispatch p a s h)))).
Proof.
  cbn [events]. destruct (dispatch p a s h) as [[s1 h1] o1]. cbn [fst snd].
  destruct (dispatch p b s1 h1) as [[s2 h2] o2]. reflexivity.
Qed.

(** C7, as stated, fails: blue = 254 is a valid value off both boundaries
    of [0,255]; with a step of 2 the increment is clamped to 255 and the
    decrement then lands on 253. *)
Lemma increment_decrement_near_boundary :
  ~ (forall (p : Props.t) (c : Color) (m : option Q),
        let s := fst (mount p c) in
        let h := snd (mount p c) in
        let xr := getChannelRange (value s) (xChannel (channels s)) in
        minValue xr < xValue s < maxValue xr ->
        xValue (fst (fst (events p [IncrementX m; DecrementX m] s h))) == xValue s).
Proof.
  intros H.
  specialize (H stepProps (rgba 0 0 254 1) None).
  cbv zeta in H.
  assert (Hin : minValue (getChannelRange (value (fst (mount stepProps (rgba 0 0 254 1))))
                            (xChannel (channels (fst (mount stepProps (rgba 0 0 254 1))))))
                < xValue (fst (mount stepProps (rgba 0 0 254 1)))
                < maxValue (getChannelRange (value (fst (mount stepProps (rgba 0 0 254 1))))
                            (xChannel (channels (fst (mount stepProps (rgba 0 0 254 1)))))))
    by (split; vm_compute; reflexivity).
  specialize (H Hin). vm_compute in H. discriminate H.
Qed.

(** C7 (amended): for every valid channel value v and every applied step
    (the larger of minStepSize, 0 when it is not given, and the axis step)
    that is not negative and fits below the maximum
    (v + step <= maxValue), where v, the step and v + step are safe
    integers, incrementX() in one event and, after the render that
    follows it, decrementX() with the same step in the next event return
    the x-axis channel to v.  (On safe integers the additions and
    subtractions of the source are exact, so the rationals of the model
    compute what the code computes; the three integrality conditions play
    no other part.) *)
Theorem increment_then_decrement (p : Props.t) (h : Hooks) (m : option Q) :
  let s := fst (useColorAreaState p h) in
  let h0 := snd (useColorAreaState p h) in
  let xr := getChannelRange (value s) (xChannel (channels s)) in
  let stp := Qmax (match m with Some minStepSize => minStepSize | None => 0 end)
                 (xChannelStep s) in
  safeInteger (xValue s) = true -> safeInteger stp = true ->
  safeInteger (xValue s + stp) = true ->
  minValue xr <= xValue s -> 0 <= stp -> xValue s + stp <= maxValue xr ->
  xValue (fst (fst (events p [IncrementX m; DecrementX m] s h0))) == xValue s.
Proof.
  intros s h0 xr stp _ _ _ Hmin Hstp Hmax.
  rewrite events_two, dispatch_IncrementX.
  unfold incrementX. fold xr.
  change (Qmax (minStepSizeOr0 m) (xChannelStep s)) with stp.
  destruct (Qlt_bool (xValue s) (maxValue xr)) eqn:Elt.
  - cbn [setXValue]. cbv zeta. cbn [fst snd].
    set (c1 := withChannelValue (value s) (xChannel (channels s))
                 (Qmin (xValue s + stp) (maxValue xr))).
    set (s1 := fst (useColorAreaState p (fst (setColor p h0 c1)))).
    rewrite dispatch_DecrementX.
    assert (Hx1 : xValue s1 = Qmin (xValue s + stp) (maxValue xr)).
    { cbn. rewrite ColorChannel_eqb_refl. reflexivity. }
    assert (Hs1 : xChannelStep s1 = xChannelStep s) by reflexivity.
    assert (Hr1 : getChannelRange (value s1) (xChannel (channels s1)) = xr)
      by reflexivity.
    assert (Hq : Qmin (xValue s + stp) (maxValue xr) == xValue s + stp)
      by (apply Q.min_l; exact Hmax).
    unfold decrementX. rewrite Hr1, Hs1.
    change (Qmax (minStepSizeOr0 m) (xChannelStep s)) with stp. rewrite Hx1.
    destruct (Qlt_bool (minValue xr) (Qmin (xValue s + stp) (maxValue xr))) eqn:E2.
    + cbn. rewrite ColorChannel_eqb_refl.
      change (getChannelValue (stateColor h)
                (xChannel (resolveChannels (Props.xChannel p) (Props.yChannel p))))
        with (xValue s).
      rewrite Hq.
      destruct (Q.max_spec (xValue s + stp - stp) (minValue xr)) as [[? E]|[? E]];
        rewrite E; lra.
    + apply Qlt_bool_false in E2. cbn [renderPending useColorAreaState snd fst].
      rewrite Hx1, Hq. rewrite Hq in E2. lra.
  - apply Qlt_bool_false in Elt.
    assert (Hp : renderPending h0 = false) by reflexivity.
    rewrite Hp. cbn [fst snd].
    rewrite dispatch_DecrementX, Hp.
    unfold decrementX. fold xr.
    change (Qmax (minStepSizeOr0 m) (xChannelStep s)) with stp.
    destruct (Qlt_bool (minValue xr) (xValue s)) eqn:E2.
    + cbn. rewrite ColorChannel_eqb_refl.
      change (getChannelValue (stateColor h)
                (xChannel (resolveChannels (Props.xChannel p) (Props.yChannel p))))
        with (xValue s).
      destruct (Q.max_spec (xValue s - stp) (minValue xr)) as [[? E]|[? E]];
        rewrite E; lra.
    + reflexivity.
Qed.

Lemma increment_then_decrement_witness :
  let h := snd (mount stepProps (rgba 0 0 100 1)) in
  xValue (fst (fst (events stepProps [IncrementX None; DecrementX None]
                      (fst (useColorAreaState stepProps h))
                      (snd (useColorAreaState stepProps h))))) == 100 /\
  xValue (fst (fst (events stepProps [IncrementX (Some 10); DecrementX (Some 10)]
                      (fst (useColorAreaState stepProps h))
                      (snd (useColorAreaState stepProps h))))) == 100.
Proof.
  intros h. split.
  - apply (increment_then_decrement stepProps h None);
      try reflexivity; vm_compute; discriminate.
  - apply (increment_then_decrement stepProps h (Some 10));
      try reflexivity; vm_compute; discriminate.
Defined.

(** ** The drag life cycle *)

(** On one and the same returned object, with no render in between,
    [setDragging(true)] then [setDragging(false)] reports the end of the
    drag once, with the color of [valueRef]. *)
Lemma setDragging_same_object (p : Props.t) (c : Color) :
  Props.onChangeEnd p = true ->
  let s := fst (mount p c) in
  let h := snd (mount p c) in
  changeEnds (snd (calls p [SetDragging true; SetDragging false] s h)) = [c].
Proof. intros H. cbn. rewrite H. reflexivity. Qed.

(** No method writes the cell of [useRef(false)]: every render starts its
    local [isDraggingRef] from the same value. *)
Lemma draggingRefCell_never_written (p : Props.t) (m : Method)
    (s : ColorAreaState) (h : Hooks) :
  draggingRefCell (snd (fst (dispatch p m s h))) = draggingRefCell h.
Proof.
  assert (C : forall oc, draggingRefCell (fst (commit p h oc)) = draggingRefCell h)
    by (intros [c|]; reflexivity).
  assert (I : draggingRefCell (snd (fst (invoke p m s h))) = draggingRefCell h).
  { unfold invoke. destruct m; try reflexivity;
      match goal with
      | |- context [commit p h ?o] =>
          specialize (C o); destruct (commit p h o); exact C
      end. }
  unfold dispatch. destruct (invoke p m s h) as [[s1 h1] out].
  destruct (renderPending h1); exact I.
Qed.

(** [setDragging(false)] on a freshly rendered object calls nothing. *)
Lemma setDragging_false_idle (p : Props.t) (h : Hooks) :
  draggingRefCell h = false ->
  let s := fst (useColorAreaState p h) in
  let h0 := snd (useColorAreaState p h) in
  snd (dispatch p (SetDragging false) s h0) = [].
Proof.
  intros H. unfold dispatch, invoke, setDragging. cbn. rewrite H.
  rewrite andb_false_r. destruct (draggingState h); reflexivity.
Qed.

(** C5 at its failing input: [setDragging(true)] changes the [isDragging]
    cell, so the hook body runs again and its local [isDraggingRef] starts
    from [useRef(false).current], which nothing ever writes; the
    [setDragging(false)] of the next event therefore sees no drag in
    progress and the end-of-drag callback is not called at all, where the
    claim has it called exactly once. *)
Theorem setDragging_end_callback_lost (p : Props.t) (c : Color) :
  let s := fst (mount p c) in
  let h := snd (mount p c) in
  changeEnds (snd (events p [SetDragging true; SetDragging false] s h)) = [].
Proof.
  cbn. destruct (Props.onChangeEnd p); reflexivity.
Qed.

(** ** The thumb position *)

Lemma fraction_bounds (v lo hi : Q) :
  lo < hi -> lo <= v <= hi ->
  let t := (v - lo) / (hi - lo) in
  0 <= t <= 1 /\ t * (hi - lo) == v - lo /\
  (t == 0 <-> v == lo) /\ (t == 1 <-> v == hi).
Proof.
  intros Hd Hv t.
  assert (E : t * (hi - lo) == v - lo) by (unfold t; field; lra).
  assert (H0 : 0 <= t).
  { unfold t. apply Qle_shift_div_l; lra. }
  assert (H1 : t <= 1).
  { unfold t. apply Qle_shift_div_r; lra. }
  repeat split; try assumption.
  - intros Ht. rewrite Ht in E. lra.
  - intros Hl. unfold t. rewrite Hl. field. lra.
  - intros Ht. rewrite Ht in E. lra.
  - intros Hh. unfold t. rewrite Hh. field. lra.
Qed.

(** X1: the thumb of a valid color lies in the unit square; it touches the
    left edge exactly at the minimum of the x channel and the right edge
    exactly at its maximum, and, the y axis being upside down, the top
    edge exactly at the maximum of the y channel and the bottom edge
    exactly at its minimum. *)
Theorem getThumbPosition_in_unit_square (p : Props.t) (h : Hooks) :
  let s := fst (useColorAreaState p h) in
  let rx := getChannelRange (value s) (xChannel (channels s)) in
  let ry := getChannelRange (value s) (yChannel (channels s)) in
  let x := fst (getThumbPosition s) in
  let y := snd (getThumbPosition s) in
  properRanges s -> inRange s ->
  0 <= x <= 1 /\ 0 <= y <= 1 /\
  (x == 0 <-> xValue s == minValue rx) /\
  (x == 1 <-> xValue s == maxValue rx) /\
  (y == 0 <-> yValue s == maxValue ry) /\
  (y == 1 <-> yValue s == minValue ry).
Proof.
  intros s rx ry x y [Px Py] [Rx Ry].
  destruct (fraction_bounds (xValue s) (minValue rx) (maxValue rx) Px Rx)
    as (Bx & _ & Zx & Ox).
  destruct (fraction_bounds (yValue s) (minValue ry) (maxValue ry) Py Ry)
    as (By & _ & Zy & Oy).
  unfold x, y, getThumbPosition. fold rx ry. cbn [fst snd].
  set (tx := (xValue s - minValue rx) / (maxValue rx - minValue rx)) in *.
  set (ty := (yValue s - minValue ry) / (maxValue ry - minValue ry)) in *.
  split; [exact Bx|]. split; [lra|].
  split; [exact Zx|]. split; [exact Ox|].
  split.
  - rewrite <- Oy. split; intros; lra.
  - rewrite <- Zy. split; intros; lra.
Qed.

Lemma getThumbPosition_in_unit_square_witness :
  let s := fst (mount plainProps (rgba 0 102 51 1)) in
  0 <= fst (getThumbPosition s) <= 1 /\ 0 <= snd (getThumbPosition s) <= 1.
Proof.
  intros s.
  destruct (getThumbPosition_in_unit_square plainProps
              (snd (mount plainProps (rgba 0 102 51 1)))) as (Hx & Hy & _).
  - split; vm_compute; reflexivity.
  - repeat split; vm_compute; discriminate.
  - split; [exact Hx | exact Hy].
Defined.

(** ** Sequences of steps *)

(** Rendering twice in a row gives the same object and cells. *)
Lemma useColorAreaState_again (p : Props.t) (h : Hooks) :
  useColorAreaState p (snd (useColorAreaState p h)) = useColorAreaState p h.
Proof. reflexivity. Qed.

(** Replacing an axis channel by a value of its range, and rendering,
    gives an object whose two axis values are in range again (also when
    both axes name the same channel). *)
Lemma inRange_after_replace (p : Props.t) (h : Hooks) (ch : ColorChannel) (v : Q) :
  let s := fst (useColorAreaState p h) in
  let h0 := snd (useColorAreaState p h) in
  inRange s ->
  ch = xChannel (channels s) \/ ch = yChannel (channels s) ->
  minValue (getChannelRange (value s) ch) <= v
    <= maxValue (getChannelRange (value s) ch) ->
  inRange (fst (useColorAreaState p
                  (fst (setColor p h0 (withChannelValue (value s) ch v))))).
Proof.
  intros s h0 [Rx Ry] Hch Hv.
  unfold inRange. cbn.
  change (getChannelValue (stateColor h)
            (xChannel (resolveChannels (Props.xChannel p) (Props.yChannel p))))
    with (xValue s).
  change (getChannelValue (stateColor h)
            (yChannel (resolveChannels (Props.xChannel p) (Props.yChannel p))))
    with (yValue s).
  change (stateColor h) with (value s).
  change (resolveChannels (Props.xChannel p) (Props.yChannel p)) with (channels s).
  split.
  - destruct (ColorChannel_eqb (xChannel (channels s)) ch) eqn:E; [|exact Rx].
    apply ColorChannel_eqb_eq in E. rewrite E. exact Hv.
  - destruct (ColorChannel_eqb (yChannel (channels s)) ch) eqn:E; [|exact Ry].
    apply ColorChannel_eqb_eq in E. rewrite E. exact Hv.
Qed.

Lemma dispatch_stepping (p : Props.t) (h : Hooks) (m : Method) :
  let s := fst (useColorAreaState p h) in
  let h0 := snd (useColorAreaState p h) in
  steppingMethod m = true -> inRange s ->
  exists h', fst (dispatch p m s h0) = useColorAreaState p h' /\
             inRange (fst (useColorAreaState p h')).
Proof.
  intros s h0 Hm HR.
  assert (Hidle : exists h', (s, h0) = useColorAreaState p h' /\
                             inRange (fst (useColorAreaState p h'))).
  { exists h0. split; [reflexivity | exact HR]. }
  pose proof HR as [Rx Ry].
  destruct m as [c|v|v|x y|k|k|k|k|d]; try discriminate Hm;
    cbn [steppingMethod] in Hm; apply Qle_bool_iff in Hm;
    unfold dispatch, invoke.
  - unfold incrementX.
    destruct (Qlt_bool (xValue s) _) eqn:E; cbn [commit]; [|exact Hidle].
    apply Qlt_bool_iff in E. eexists. split; [reflexivity|].
    apply (inRange_after_replace p h); [exact HR | left; reflexivity | fold s].
    pose proof (Q.le_max_l (minStepSizeOr0 k) (xChannelStep s)).
    split; [apply Q.min_glb; lra | apply Q.le_min_r].
  - unfold incrementY.
    destruct (Qlt_bool (yValue s) _) eqn:E; cbn [commit]; [|exact Hidle].
    apply Qlt_bool_iff in E. eexists. split; [reflexivity|].
    apply (inRange_after_replace p h); [exact HR | right; reflexivity | fold s].
    pose proof (Q.le_max_l (minStepSizeOr0 k) (yChannelStep s)).
    split; [apply Q.min_glb; lra | apply Q.le_min_r].
  - unfold decrementX.
    destruct (Qlt_bool _ (xValue s)) eqn:E; cbn [commit]; [|exact Hidle].
    apply Qlt_bool_iff in E. eexists. split; [reflexivity|].
    apply (inRange_after_replace p h); [exact HR | left; reflexivity | fold s].
    pose proof (Q.le_max_l (minStepSizeOr0 k) (xChannelStep s)).
    split; [apply Q.le_max_r | apply Q.max_lub; lra].
  - unfold decrementY.
    destruct (Qlt_bool _ (yValue s)) eqn:E; cbn [commit]; [|exact Hidle].
    apply Qlt_bool_iff in E. eexists. split; [reflexivity|].
    apply (inRange_after_replace p h); [exact HR | right; reflexivity | fold s].
    pose proof (Q.le_max_l (minStepSizeOr0 k) (yChannelStep s)).
    split; [apply Q.le_max_r | apply Q.max_lub; lra].
Qed.

(** X3: any sequence of increments and decrements, along either axis and with
    minimum step sizes that are not negative, each followed by its render,
    keeps both axis values inside the ranges of their channels. *)
Theorem stepping_keeps_in_range (p : Props.t) (ms : list Method) (h : Hooks) :
  let s := fst (useColorAreaState p h) in
  let h0 := snd (useColorAreaState p h) in
  inRange s -> forallb steppingMethod ms = true ->
  inRange (fst (fst (events p ms s h0))).
Proof.
  revert h. induction ms as [|m ms IH]; intros h s h0 HR Hms; [exact HR|].
  cbn [forallb] in Hms. apply andb_true_iff in Hms. destruct Hms as [Hm Hms].
  destruct (dispatch_stepping p h m Hm HR) as (h' & E & HR').
  fold s h0 in E.
  cbn [events]. destruct (dispatch p m s h0) as [[s1 h1] o1]. cbn [fst] in E.
  specialize (IH h' HR' Hms). cbv zeta in IH. rewrite <- E in IH. cbn [fst snd] in IH.
  destruct (events p ms s1 h1) as [[s2 h2] o2]. exact IH.
Qed.

Lemma stepping_keeps_in_range_witness :
  inRange (fst (fst (events stepProps
                       [IncrementX None; IncrementX (Some 10); DecrementY None;
                        IncrementY None; DecrementX (Some 300)]
                       (fst (mount stepProps (rgba 0 255 254 1)))
                       (snd (mount stepProps (rgba 0 255 254 1)))))).
Proof.
  apply (stepping_keeps_in_range stepProps _
           (snd (mount stepProps (rgba 0 255 254 1)))).
  - repeat split; vm_compute; discriminate.
  - reflexivity.
Defined.

(** ** When the end of a drag is reported *)

Lemma changeEnds_app (a b : list Callback) :
  changeEnds (a ++ b) = changeEnds a ++ changeEnds b.
Proof.
  induction a as [|[c|c] a IH]; cbn; [reflexivity | exact IH | now rewrite IH].
Qed.

Lemma commit_quiet (p : Props.t) (h : Hooks) (oc : option Color) :
  draggingState (fst (commit p h oc)) = draggingState h /\
  draggingRefCell (fst (commit p h oc)) = draggingRefCell h /\
  valueRef (fst (commit p h oc)) = valueRef h /\
  changeEnds (snd (commit p h oc)) = [].
Proof.
  destruct oc as [c|]; cbn; [|auto].
  destruct (Props.onChange p); auto.
Qed.

(** A method other than [setDragging] leaves the object alone, never
    calls the end-of-drag callback, and only [setValue] writes
    [valueRef]. *)
Lemma invoke_other (p : Props.t) (m : Method) (s : ColorAreaState) (h : Hooks) :
  isSetDragging m = false ->
  fst (fst (invoke p m s h)) = s /\
  draggingState (snd (fst (invoke p m s h))) = draggingState h /\
  draggingRefCell (snd (fst (invoke p m s h))) = draggingRefCell h /\
  valueRef (snd (fst (invoke p m s h))) = lastSetValue [m] (valueRef h) /\
  changeEnds (snd (invoke p m s h)) = [].
Proof.
  intros Hm. unfold invoke.
  destruct m as [c|v|v|x y|k|k|k|k|d]; try discriminate Hm;
    try (match goal with
         | |- context [commit p h ?o] =>
             destruct (commit_quiet p h o) as (A & B & C & D);
             destruct (commit p h o) as [h' out]; cbn in *; auto
         end).
  cbn. destruct (Props.onChange p); auto.
Qed.

Lemma dispatch_quiet (p : Props.t) (m : Method) (s : ColorAreaState) (h : Hooks) :
  isDraggingRef s = false -> draggingRefCell h = false ->
  (m = SetDragging true -> draggingState h = false) ->
  isDraggingRef (fst (fst (dispatch p m s h))) = false /\
  draggingRefCell (snd (fst (dispatch p m s h))) = false /\
  draggingState (snd (fst (dispatch p m s h)))
  = match m with SetDragging d => d | _ => draggingState h end /\
  changeEnds (snd (dispatch p m s h)) = [].
Proof.
  intros Hs Hh Hm.
  destruct (isSetDragging m) eqn:Em.
  - destruct m as [c|v|v|x y|k|k|k|k|d]; try discriminate Em.
    unfold dispatch, invoke, setDragging. rewrite Hs, Hh.
    destruct d.
    + rewrite (Hm eq_refl). cbn. rewrite orb_true_r. cbn.
      rewrite andb_false_r. auto.
    + cbn. rewrite andb_false_r.
      destruct (renderPending h || negb (if draggingState h then false else true));
        cbn; auto.
  - destruct (invoke_other p m s h Em) as (A & B & C & _ & E).
    unfold dispatch. destruct (invoke p m s h) as [[s1 h1] out].
    cbn [fst snd] in *. subst s1.
    assert (Hd : match m with SetDragging d => d | _ => draggingState h end
                 = draggingState h)
      by (destruct m; try reflexivity; discriminate Em).
    rewrite Hd.
    destruct (renderPending h1); cbn; rewrite ?B, ?C; auto.
Qed.

(** X4: as long as [setDragging(true)] is never called while the [isDragging]
    cell is already true, no sequence of events ever reaches the
    end-of-drag callback, whatever moves, steps and [setDragging(false)]
    calls it contains: each [setDragging(true)] causes a render, and the
    render forgets that a drag is in progress. *)
Theorem drag_end_never_reported (p : Props.t) (ms : list Method)
    (s : ColorAreaState) (h : Hooks) :
  isDraggingRef s = false -> draggingRefCell h = false ->
  dragsAlternate (draggingState h) ms = true ->
  changeEnds (snd (events p ms s h)) = [].
Proof.
  revert s h. induction ms as [|m ms IH]; intros s h Hs Hh Hms; [reflexivity|].
  assert (Hm : m = SetDragging true -> draggingState h = false).
  { intros ->. cbn in Hms. apply andb_true_iff in Hms.
    destruct (draggingState h); [destruct Hms; discriminate | reflexivity]. }
  destruct (dispatch_quiet p m s h Hs Hh Hm) as (A & B & C & D).
  assert (Hrest : dragsAlternate (draggingState (snd (fst (dispatch p m s h)))) ms
                  = true).
  { rewrite C. destruct m as [c|v|v|x y|k|k|k|k|d]; try exact Hms.
    destruct d; cbn in Hms; [|exact Hms].
    apply andb_true_iff in Hms. apply Hms. }
  cbn [events]. destruct (dispatch p m s h) as [[s1 h1] o1]. cbn [fst snd] in *.
  specialize (IH s1 h1 A B Hrest).
  destruct (events p ms s1 h1) as [[s2 h2] o2]. cbn [snd] in *.
  rewrite changeEnds_app, D, IH. reflexivity.
Qed.

Lemma drag_end_never_reported_witness :
  changeEnds (snd (events plainProps
                     [SetDragging true; SetColorFromPoint (1 # 2) (1 # 4);
                      IncrementX None; SetDragging false; SetDragging false]
                     (fst (mount plainProps (rgba 0 102 51 1)))
                     (snd (mount plainProps (rgba 0 102 51 1))))) = [].
Proof.
  apply drag_end_never_reported; reflexivity.
Defined.

(** X5: within one event, on one and the same returned object:
    [setDragging(true)], then any calls other than [setDragging], then
    [setDragging(false)] reports the end of the drag exactly once, and the
    color it reports is the one of the last [setValue] call in between,
    or, without one, the color of the render; moves and steps in between
    do not show in it. *)
Theorem drag_end_reports_valueRef (p : Props.t) (ms : list Method)
    (s : ColorAreaState) (h : Hooks) :
  Props.onChangeEnd p = true ->
  forallb (fun m => negb (isSetDragging m)) ms = true ->
  changeEnds (snd (calls p (SetDragging true :: ms ++ [SetDragging false]) s h))
  = [lastSetValue ms (valueRef h)].
Proof.
  intros Hp Hms.
  assert (G : forall ms s h,
             isDraggingRef s = true ->
             forallb (fun m => negb (isSetDragging m)) ms = true ->
             changeEnds (snd (calls p (ms ++ [SetDragging false]) s h))
             = [lastSetValue ms (valueRef h)]).
  { clear ms s h Hms.
    induction ms as [|m ms IH]; intros s h Hs Hms.
    - cbn. rewrite Hp, Hs. reflexivity.
    - cbn [forallb] in Hms. apply andb_true_iff in Hms. destruct Hms as [Hm Hms].
      apply negb_true_iff in Hm.
      destruct (invoke_other p m s h Hm) as (A & _ & _ & D & E).
      cbn [app calls]. destruct (invoke p m s h) as [[s1 h1] o1].
      cbn [fst snd] in *. subst s1.
      specialize (IH s h1 Hs Hms).
      destruct (calls p (ms ++ [SetDragging false]) s h1) as [[s2 h2] o2].
      cbn [snd] in *. rewrite changeEnds_app, E, IH, D.
      destruct m; reflexivity. }
  cbn [calls invoke setDragging].
  specialize (G ms
    {| channels := channels s; xChannelStep := xChannelStep s;
       yChannelStep := yChannelStep s; value := value s; xValue := xValue s;
       yValue := yValue s; isDragging := isDragging s; isDraggingRef := true |}
    {| stateColor := stateColor h; valueRef := valueRef h; draggingState := true;
       draggingRefCell := draggingRefCell h;
       renderPending := renderPending h || negb (Bool.eqb true (draggingState h)) |}
    eq_refl Hms).
  destruct (calls p (ms ++ [SetDragging false]) _ _) as [[s2 h2] o2].
  cbn [snd valueRef] in *. rewrite changeEnds_app, G.
  cbn. rewrite andb_false_r. reflexivity.
Qed.

Lemma drag_end_reports_valueRef_witness :
  changeEnds (snd (calls plainProps
                     [SetDragging true; SetValue (rgba 9 9 9 1);
                      SetColorFromPoint 0 0; SetDragging false]
                     (fst (mount plainProps (rgba 0 102 51 1)))
                     (snd (mount plainProps (rgba 0 102 51 1)))))
  = [rgba 9 9 9 1].
Proof.
  apply (drag_end_reports_valueRef plainProps
           [SetValue (rgba 9 9 9 1); SetColorFromPoint 0 0]); reflexivity.
Defined.

End ColorAreaFacts.

(* ===================================================================== *)
(** * Properties of the submenu trigger *)
(* ===================================================================== *)

Module SubMenuFacts.
Import SubMenu.
Local Open Scope nat_scope.

(** ** The timer is always the one the hook remembers *)

Lemma cancelOpenTimeout_tracked (w : World) :
  timersTracked w ->
  timers (cancelOpenTimeout w) = [] /\
  openTimeout (cancelOpenTimeout w) = None /\
  isOpen (cancelOpenTimeout w) = isOpen w /\
  trace (cancelOpenTimeout w) = trace w /\
  direction (cancelOpenTimeout w) = direction w.
Proof.
  unfold timersTracked, cancelOpenTimeout.
  destruct (openTimeout w) as [k|] eqn:E.
  - intros [d Ht]. cbn. rewrite Ht. cbn. rewrite Pos.eqb_refl. cbn. auto.
  - intros Ht. rewrite E. auto.
Qed.

Lemma direction_onSubmenuOpen (w : World) (fs : option FocusStrategy) :
  direction (onSubmenuOpen w fs) = direction w.
Proof.
  unfold onSubmenuOpen, cancelOpenTimeout. destruct (openTimeout w); reflexivity.
Qed.

Lemma onSubmenuOpen_tracked (w : World) (fs : option FocusStrategy) :
  timersTracked w ->
  timers (onSubmenuOpen w fs) = [] /\
  openTimeout (onSubmenuOpen w fs) = None /\
  isOpen (onSubmenuOpen w fs) = true /\
  focusStrategy (onSubmenuOpen w fs) = fs /\
  trace (onSubmenuOpen w fs) = trace w ++ [CallOpen fs].
Proof.
  intros H. destruct (cancelOpenTimeout_tracked w H) as (Ht & Ho & _ & Htr & _).
  unfold onSubmenuOpen. cbn. rewrite Ht, Ho, Htr. auto.
Qed.

Lemma onSubMenuClose_tracked (w : World) :
  timersTracked w ->
  timers (onSubMenuClose w) = [] /\
  openTimeout (onSubMenuClose w) = None /\
  isOpen (onSubMenuClose w) = false /\
  chainOpen (onSubMenuClose w) = chainOpen w /\
  trace (onSubMenuClose w) = trace w ++ [CallClose].
Proof.
  intros H. destruct (cancelOpenTimeout_tracked w H) as (Ht & Ho & _ & Htr & _).
  unfold onSubMenuClose. cbn. rewrite Ht, Ho, Htr.
  repeat split. unfold cancelOpenTimeout. destruct (openTimeout w); reflexivity.
Qed.

(** What the passing of time does when the schedule is tracked: nothing
    with an empty schedule or a timer that is not due; one immediate-style
    open, with no focus strategy, for the timer that is due. *)
Lemma advance_tracked (w : World) (ms : nat) :
  timersTracked w ->
  match timers w with
  | t :: _ =>
      if due t <=? now w + ms
      then timers (advance w ms) = [] /\ openTimeout (advance w ms) = None /\
           isOpen (advance w ms) = true /\
           trace (advance w ms) = trace w ++ [CallOpen None]
      else timers (advance w ms) = timers w /\
           openTimeout (advance w ms) = openTimeout w /\
           isOpen (advance w ms) = isOpen w /\ trace (advance w ms) = trace w
  | [] => timers (advance w ms) = [] /\ openTimeout (advance w ms) = None /\
          isOpen (advance w ms) = isOpen w /\ trace (advance w ms) = trace w
  end.
Proof.
  unfold timersTracked, advance.
  destruct (openTimeout w) as [k|] eqn:E.
  - intros [d Ht]. rewrite Ht. cbn.
    destruct (d <=? now w + ms) eqn:Ed.
    + unfold onSubmenuOpen, cancelOpenTimeout. cbn. auto.
    + cbn. auto.
  - intros Ht. rewrite Ht. cbn. auto.
Qed.

Lemma step_tracked (w : World) (e : Event) :
  timersTracked w -> timersTracked (step w e).
Proof.
  intros H.
  assert (Hopen : forall fs, timersTracked (onSubmenuOpen w fs)).
  { intros fs. destruct (onSubmenuOpen_tracked w fs H) as (Ht & Ho & _).
    unfold timersTracked. rewrite Ho. exact Ht. }
  assert (Hcancel : timersTracked (cancelOpenTimeout w)).
  { destruct (cancelOpenTimeout_tracked w H) as (Ht & Ho & _).
    unfold timersTracked. rewrite Ho. exact Ht. }
  assert (Hemit : forall v x, timersTracked v -> timersTracked (emit v x))
    by (intros v x Hv; exact Hv).
  destruct e as [b | pt | pt | k | k | | ms]; cbn [step].
  - unfold onHoverChange.
    destruct b, (isOpen w); cbn [andb negb]; try assumption.
    destruct (openTimeout w) eqn:E; [assumption|].
    unfold timersTracked in H. rewrite E in H.
    unfold timersTracked. cbn. rewrite H. eexists. reflexivity.
  - destruct pt; cbn; auto.
  - destruct pt; cbn; auto.
  - unfold triggerOnKeyDown. cbv zeta beta.
    destruct (String.eqb k "ArrowRight"); [|destruct (String.eqb k "ArrowLeft")];
      destruct (direction w) eqn:D; apply Hemit;
      rewrite ?direction_onSubmenuOpen, ?D; auto.
  - unfold subMenuOnKeyDown.
    destruct (String.eqb k "ArrowLeft").
    + destruct (direction w); [|assumption].
      destruct (onSubMenuClose_tracked w H) as (Ht & Ho & _).
      unfold timersTracked. rewrite Ho. exact Ht.
    + destruct (String.eqb k "ArrowRight"); [destruct (direction w); assumption|].
      destruct (String.eqb k "Escape"); exact H.
  - exact Hcancel.
  - pose proof (advance_tracked w ms H) as A.
    unfold timersTracked in *.
    destruct (openTimeout w) as [k|] eqn:E.
    + destruct H as [d Ht]. rewrite Ht in A. cbn [due] in A.
      destruct (d <=? now w + ms).
      * destruct A as (At & Ao & _). rewrite Ao. exact At.
      * destruct A as (At & Ao & _). rewrite Ao. exists d. rewrite At. reflexivity.
    + rewrite H in A. destruct A as (At & Ao & _). rewrite Ao. exact At.
Qed.

Lemma run_tracked (es : list Event) (w : World) :
  timersTracked w -> timersTracked (run w es).
Proof.
  revert w. induction es as [|e es IH]; intros w H; [exact H|].
  cbn. apply IH. apply step_tracked. exact H.
Qed.

(** ** Where timers come from and where they go *)

(** One event either empties the schedule, or leaves it as it was, or is
    the hover-enter on a closed trigger with nothing pending, which
    schedules the one timer, due 200ms later. *)
Lemma step_timers (w : World) (e : Event) :
  timersTracked w ->
  timers (step w e) = [] \/
  timers (step w e) = timers w \/
  (e = HoverChange true /\ isOpen w = false /\ openTimeout w = None /\
   timers w = [] /\
   timers (step w e) = [mkTimer (nextHandle w) (now w + 200)] /\
   openTimeout (step w e) = Some (nextHandle w)).
Proof.
  intros H.
  pose proof (fun fs => proj1 (onSubmenuOpen_tracked w fs H)) as Hopen.
  pose proof (proj1 (cancelOpenTimeout_tracked w H)) as Hcancel.
  destruct e as [b | pt | pt | k | k | | ms]; cbn [step].
  - unfold onHoverChange.
    destruct b, (isOpen w) eqn:Eo; cbn [andb negb]; auto.
    destruct (openTimeout w) eqn:E; auto.
    unfold timersTracked in H. rewrite E in H.
    right; right. cbn. rewrite H. auto 10.
  - destruct pt; cbn [onPressStart]; auto.
  - destruct pt; cbn [onPress]; auto.
  - unfold triggerOnKeyDown. cbv zeta beta.
    destruct (String.eqb k "ArrowRight"); [|destruct (String.eqb k "ArrowLeft")];
      destruct (direction w) eqn:D;
      rewrite ?direction_onSubmenuOpen, ?D; cbn [emit timers]; auto.
  - unfold subMenuOnKeyDown.
    destruct (String.eqb k "ArrowLeft").
    + destruct (direction w); auto.
    + destruct (String.eqb k "ArrowRight"); [destruct (direction w); auto|].
      destruct (String.eqb k "Escape"); cbn; auto.
  - auto.
  - pose proof (advance_tracked w ms H) as A.
    destruct (timers w) as [|t ts]; [left; exact (proj1 A)|].
    destruct (due t <=? now w + ms); [left|right; left]; exact (proj1 A).
Qed.

(** The listed ways out of the pending-open state all leave an empty
    schedule and an empty [openTimeout.current]. *)
Lemma leaving_cancels (w : World) (e : Event) :
  timersTracked w -> leavesPendingOpen (direction w) e = true ->
  timers (step w e) = [] /\ openTimeout (step w e) = None.
Proof.
  intros H L.
  pose proof (fun fs => onSubmenuOpen_tracked w fs H) as Hopen.
  pose proof (cancelOpenTimeout_tracked w H) as Hcancel.
  destruct e as [b | pt | pt | k | k | | ms]; cbn [step]; cbn in L.
  - destruct b; [discriminate L|].
    unfold onHoverChange. cbn [andb negb]. split; apply Hcancel.
  - destruct pt; try discriminate L; cbn [onPressStart]; split; apply Hopen.
  - destruct pt; try discriminate L; cbn [onPress]; split; apply Hopen.
  - unfold triggerOnKeyDown. cbv zeta beta.
    destruct (direction w) eqn:D.
    + rewrite L, direction_onSubmenuOpen, D. cbn [emit timers openTimeout].
      split; apply Hopen.
    + apply String.eqb_eq in L. subst k. cbn [String.eqb Ascii.eqb Bool.eqb].
      cbn [emit timers openTimeout]. split; apply Hopen.
  - unfold subMenuOnKeyDown.
    destruct (direction w) eqn:D; [|discriminate L].
    rewrite L. destruct (onSubMenuClose_tracked w H) as (? & ? & _). auto.
  - split; apply Hcancel.
  - discriminate L.
Qed.

(** With nothing scheduled, time alone changes nothing but the clock. *)
Lemma advance_idle (w : World) (ms : nat) :
  timers w = [] ->
  timers (advance w ms) = [] /\ openTimeout (advance w ms) = openTimeout w /\
  isOpen (advance w ms) = isOpen w /\ trace (advance w ms) = trace w.
Proof. intros H. unfold advance. cbn. rewrite H. cbn. auto. Qed.

Lemma idle_time_passes (ds : list nat) (w : World) :
  timers w = [] ->
  timers (run w (map Advance ds)) = [] /\
  isOpen (run w (map Advance ds)) = isOpen w /\
  trace (run w (map Advance ds)) = trace w.
Proof.
  revert w. induction ds as [|d ds IH]; intros w H; [auto|].
  cbn [map run fold_left step].
  destruct (advance_idle w d H) as (Ht & _ & Ho & Htr).
  destruct (IH (advance w d) Ht) as (IH1 & IH2 & IH3).
  unfold run in *. rewrite IH2, IH3. auto.
Qed.

Lemma mounted_tracked (d : Direction) (o c : bool) : timersTracked (mounted d o c).
Proof. reflexivity. Qed.

(** The hover-enter on a freshly mounted, closed trigger. *)
Lemma hover_enter_mounted (d : Direction) (c : bool) :
  step (mounted d false c) (HoverChange true) =
  {| direction := d; now := 0; nextHandle := 2%positive;
     timers := [mkTimer 1%positive 200]; openTimeout := Some 1%positive;
     isOpen := false; focusStrategy := None; chainOpen := c; trace := [] |}.
Proof. reflexivity. Qed.

(** C3: for every sequence of hover, press, keyboard, unmount and
    time-passing events on one trigger instance, at most one open-delay
    timer is pending at any time, and it is the one the hook remembers; a
    new timer is armed only on hover-enter while closed with none
    pending, and it is due 200ms later; every transition away from the
    pending-open state (hover-exit, immediate keyboard or touch open,
    close, unmount) cancels the outstanding timer, so that after
    hover-exit or unmount no passing of time opens the submenu.  In
    particular hover-enter on a closed trigger opens it exactly once when
    200ms have passed, and a hover-exit before 200ms have passed prevents
    the open. *)
Theorem open_timer_discipline :
  (forall d o c es,
      let w := run (mounted d o c) es in
      timersTracked w /\ List.length (timers w) <= 1) /\
  (forall w e t,
      timersTracked w -> In t (timers (step w e)) -> ~ In t (timers w) ->
      e = HoverChange true /\ isOpen w = false /\ timers w = [] /\
      due t = now w + 200) /\
  (forall w e,
      timersTracked w -> leavesPendingOpen (direction w) e = true ->
      timers (step w e) = [] /\ openTimeout (step w e) = None) /\
  (forall w e ds,
      timersTracked w -> e = HoverChange false \/ e = Unmount ->
      isOpen (run w (e :: map Advance ds)) = isOpen w /\
      trace (run w (e :: map Advance ds)) = trace w) /\
  (forall d c ms ds,
      200 <= ms ->
      let w := run (mounted d false c)
                   (HoverChange true :: Advance ms :: map Advance ds) in
      isOpen w = true /\ opens (trace w) = 1) /\
  (forall d c t1 ds,
      t1 < 200 ->
      let w := run (mounted d false c)
                   (HoverChange true :: Advance t1 :: HoverChange false
                      :: map Advance ds) in
      isOpen w = false /\ opens (trace w) = 0).
Proof.
  repeat apply conj.
  - intros d o c es w.
    assert (H : timersTracked w) by (apply run_tracked, mounted_tracked).
    split; [exact H|].
    unfold timersTracked in H. destruct (openTimeout w).
    + destruct H as [x ->]. cbn. lia.
    + rewrite H. cbn. lia.
  - intros w e t H Hin Hnot.
    destruct (step_timers w e H) as [E | [E | (He & Ho & _ & Ht & E & _)]].
    + rewrite E in Hin. destruct Hin.
    + rewrite E in Hin. contradiction.
    + rewrite E in Hin. destruct Hin as [<- | []]. auto.
  - exact leaving_cancels.
  - intros w e ds H He.
    assert (Hs : timers (step w e) = [] /\ isOpen (step w e) = isOpen w
                 /\ trace (step w e) = trace w).
    { destruct (cancelOpenTimeout_tracked w H) as (? & _ & ? & ? & _).
      destruct He as [-> | ->]; cbn [step]; auto. }
    destruct Hs as (Ht & Ho & Htr).
    destruct (idle_time_passes ds (step w e) Ht) as (_ & I2 & I3).
    cbn [run fold_left]. unfold run in I2, I3. rewrite I2, I3. auto.
  - intros d c ms ds Hms w. subst w.
    cbn [run fold_left]. rewrite hover_enter_mounted.
    set (w1 := {| direction := d; now := 0; nextHandle := 2%positive;
                  timers := [mkTimer 1%positive 200];
                  openTimeout := Some 1%positive; isOpen := false;
                  focusStrategy := None; chainOpen := c; trace := [] |}).
    assert (A := advance_tracked w1 ms
                   (ex_intro _ 200 eq_refl : timersTracked w1)).
    cbn [timers due now w1] in A.
    replace (200 <=? 0 + ms) with true in A
      by (symmetry; apply Nat.leb_le; lia).
    destruct A as (At & _ & Ao & Atr).
    destruct (idle_time_passes ds (step w1 (Advance ms)) At) as (_ & I2 & I3).
    unfold run in I2, I3. rewrite I2, I3. cbn [step]. rewrite Ao, Atr.
    split; reflexivity.
  - intros d c t1 ds Ht1 w. subst w.
    cbn [run fold_left]. rewrite hover_enter_mounted.
    set (w1 := {| direction := d; now := 0; nextHandle := 2%positive;
                  timers := [mkTimer 1%positive 200];
                  openTimeout := Some 1%positive; isOpen := false;
                  focusStrategy := None; chainOpen := c; trace := [] |}).
    assert (H1 : timersTracked w1) by (exists 200; reflexivity).
    assert (A := advance_tracked w1 t1 H1).
    cbn [timers due now w1] in A.
    replace (200 <=? 0 + t1) with false in A
      by (symmetry; apply Nat.leb_gt; lia).
    destruct A as (_ & _ & Ao & Atr).
    set (w2 := step w1 (Advance t1)) in *.
    assert (H2 : timersTracked w2) by (apply step_tracked; exact H1).
    destruct (cancelOpenTimeout_tracked w2 H2) as (Ct & _ & Co & Ctr & _).
    destruct (idle_time_passes ds (step w2 (HoverChange false)) Ct) as (_ & I2 & I3).
    unfold run in I2, I3. rewrite I2, I3.
    change (step w2 (HoverChange false)) with (cancelOpenTimeout w2).
    rewrite Co, Ctr. unfold w2. cbn [step]. rewrite Ao, Atr.
    split; reflexivity.
Qed.

Lemma open_timer_discipline_witness :
  (isOpen (run (mounted ltr false true)
             [HoverChange true; Advance 200; Advance 50]) = true /\
   opens (trace (run (mounted ltr false true)
                   [HoverChange true; Advance 200; Advance 50])) = 1) /\
  (isOpen (run (mounted ltr false true)
             [HoverChange true; Advance 150; HoverChange false; Advance 500]) = false /\
   opens (trace (run (mounted ltr false true)
                   [HoverChange true; Advance 150; HoverChange false; Advance 500])) = 0) /\
  (timers (step (step (mounted rtl false true) (HoverChange true)) Unmount) = [] /\
   openTimeout (step (step (mounted rtl false true) (HoverChange true)) Unmount) = None).
Proof.
  destruct open_timer_discipline as (_ & _ & Hleave & _ & Hfire & Hexit).
  split; [|split].
  - apply (Hfire ltr true 200 [50]). lia.
  - apply (Hexit ltr true 150 [500]). lia.
  - apply (Hleave (step (mounted rtl false true) (HoverChange true)) Unmount).
    + exists 200. reflexivity.
    + reflexivity.
Defined.

(** ** Keys inside the open submenu *)

(** C4 at its failing input, next to the two cases that hold.  With the
    submenu open, ArrowLeft under LTR closes this submenu and leaves the
    rest of the chain alone, and Escape calls closeAll, which closes every
    level; but ArrowRight under RTL does nothing at all: the submenu stays
    open and no collaborator is called, where the claim has it closed. *)
Theorem submenu_close_keys (chain : bool) :
  (let w := run (mounted ltr true chain) [SubMenuKeyDown "ArrowLeft"] in
   isOpen w = false /\ chainOpen w = chain /\ trace w = [CallClose]) /\
  (forall d,
     let w := run (mounted d true chain) [SubMenuKeyDown "Escape"] in
     isOpen w = false /\ chainOpen w = false /\ trace w = [CallCloseAll]) /\
  (let w := run (mounted rtl true chain) [SubMenuKeyDown "ArrowRight"] in
   w = mounted rtl true chain /\ isOpen w = true /\ trace w = []).
Proof.
  split; [|split].
  - cbn. auto.
  - intros d. cbn. auto.
  - cbn. auto.
Qed.

(** The same three facts in any state of the trigger. *)
Lemma subMenuOnKeyDown_cases (w : World) :
  (direction w = ltr ->
   isOpen (subMenuOnKeyDown w "ArrowLeft") = false /\
   chainOpen (subMenuOnKeyDown w "ArrowLeft") = chainOpen w) /\
  (isOpen (subMenuOnKeyDown w "Escape") = false /\
   chainOpen (subMenuOnKeyDown w "Escape") = false) /\
  (subMenuOnKeyDown w "ArrowRight" = w).
Proof.
  unfold subMenuOnKeyDown. cbn [String.eqb Ascii.eqb Bool.eqb].
  split; [|split].
  - intros ->. cbn. unfold cancelOpenTimeout.
    destruct (openTimeout w); auto.
  - auto.
  - destruct (direction w); reflexivity.
Qed.

(** ** Press handlers *)

Lemma trace_cancelOpenTimeout (w : World) :
  trace (cancelOpenTimeout w) = trace w.
Proof. unfold cancelOpenTimeout. destruct (openTimeout w); reflexivity. Qed.

Lemma mouse_step_opens_nothing (w : World) (e : Event) :
  mouseEvent e = true ->
  isOpen (step w e) = isOpen w /\ trace (step w e) = trace w.
Proof.
  destruct e as [b | pt | pt | k | k | | ms]; try discriminate.
  - intros _. cbn [step]. unfold onHoverChange.
    destruct (b && negb (isOpen w)).
    + destruct (openTimeout w); auto.
    + destruct (negb b); auto.
      unfold cancelOpenTimeout. destruct (openTimeout w); auto.
  - destruct pt; try discriminate. auto.
  - destruct pt; try discriminate. auto.
Qed.

(** C10: a press never opens the submenu unless its pointer type is
    virtual or keyboard (on press-start, with focus strategy first) or
    touch (on press, with no focus strategy); for every other pointer
    type, mouse included, both press handlers leave everything as it was.
    No sequence of mouse events (hover changes, press-start and press of
    type mouse) opens the submenu or calls the menu, so a mouse opens it
    only when the hover-delay timer fires. *)
Theorem press_opens_only_for_keyboard_and_touch :
  (forall w pt,
      pt = virtual \/ pt = keyboard ->
      isOpen (onPressStart w pt) = true /\
      focusStrategy (onPressStart w pt) = Some first /\
      trace (onPressStart w pt) = trace w ++ [CallOpen (Some first)]) /\
  (forall w pt, pt <> virtual -> pt <> keyboard -> onPressStart w pt = w) /\
  (forall w,
      isOpen (onPress w touch) = true /\
      focusStrategy (onPress w touch) = None /\
      trace (onPress w touch) = trace w ++ [CallOpen None]) /\
  (forall w pt, pt <> touch -> onPress w pt = w) /\
  (forall es w,
      forallb mouseEvent es = true ->
      isOpen (run w es) = isOpen w /\ trace (run w es) = trace w).
Proof.
  repeat apply conj.
  - intros w pt [-> | ->]; cbn; rewrite trace_cancelOpenTimeout; auto.
  - intros w [] H1 H2; try reflexivity; contradiction.
  - intros w. cbn. rewrite trace_cancelOpenTimeout. auto.
  - intros w [] H; try reflexivity; contradiction.
  - induction es as [|e es IH]; intros w H; [auto|].
    cbn in H. apply andb_true_iff in H. destruct H as [He Hes].
    cbn [run fold_left].
    destruct (mouse_step_opens_nothing w e He) as [E1 E2].
    destruct (IH (step w e) Hes) as [I1 I2].
    unfold run in I1, I2. rewrite I1, I2. auto.
Qed.

Lemma press_opens_only_for_keyboard_and_touch_witness :
  onPressStart (mounted ltr false true) mouse = mounted ltr false true /\
  onPress (mounted ltr false true) mouse = mounted ltr false true /\
  isOpen (onPressStart (mounted ltr false true) keyboard) = true /\
  isOpen (run (mounted ltr false true)
            [HoverChange true; PressStart mouse; Press mouse; HoverChange false])
  = false.
Proof.
  destruct press_opens_only_for_keyboard_and_touch as (Hk & Hs & _ & Hp & Hm).
  split; [|split; [|split]].
  - apply Hs; discriminate.
  - apply Hp; discriminate.
  - apply (Hk (mounted ltr false true) keyboard). right. reflexivity.
  - apply (Hm [HoverChange true; PressStart mouse; Press mouse; HoverChange false]
              (mounted ltr false true)).
    reflexivity.
Defined.

(** ** Keys on the trigger and inside the submenu *)

Lemma onSubmenuOpen_effect (w : World) (fs : option FocusStrategy) :
  trace (onSubmenuOpen w fs) = trace w ++ [CallOpen fs] /\
  isOpen (onSubmenuOpen w fs) = true /\
  focusStrategy (onSubmenuOpen w fs) = fs.
Proof.
  unfold onSubmenuOpen. cbn. rewrite trace_cancelOpenTimeout. auto.
Qed.

(** X6: a keydown on the trigger always continues propagation, exactly once
    and last.  Before that it opens the submenu, once and with focus
    strategy first, for ArrowRight in either direction (under RTL through
    the fall-through into the ArrowLeft case) and for ArrowLeft under RTL;
    ArrowLeft under LTR and every other key open nothing. *)
Theorem triggerOnKeyDown_effect (w : World) (k : string) :
  let o := opensAtOnce (direction w) (TriggerKeyDown k) in
  let w' := triggerOnKeyDown w k in
  trace w' = trace w ++ (if o then [CallOpen (Some first)] else [])
                     ++ [ContinuePropagation] /\
  isOpen w' = (o || isOpen w) /\
  focusStrategy w' = (if o then Some first else focusStrategy w) /\
  opensAtOnce rtl (TriggerKeyDown "ArrowRight") = true /\
  opensAtOnce ltr (TriggerKeyDown "ArrowLeft") = false.
Proof.
  cbv zeta. unfold triggerOnKeyDown, opensAtOnce.
  destruct (onSubmenuOpen_effect w (Some first)) as (T & O & F).
  destruct (String.eqb k "ArrowRight") eqn:ER.
  - destruct (direction w) eqn:D; cbn [orb];
      rewrite ?direction_onSubmenuOpen, ?D; cbn [emit trace isOpen focusStrategy];
      rewrite T, O, F, <- app_assoc; auto.
  - destruct (String.eqb k "ArrowLeft") eqn:EL;
      destruct (direction w) eqn:D; cbn [orb emit trace isOpen focusStrategy];
      rewrite ?T, ?O, ?F, <- ?app_assoc; auto.
Qed.

(** X7: inside the submenu ArrowLeft, ArrowRight and Escape are consumed in
    both directions: whatever they do, they never continue propagation.
    Every other key does nothing but continue propagation. *)
Theorem subMenuOnKeyDown_propagation (w : World) (k : string) :
  let w' := subMenuOnKeyDown w k in
  if String.eqb k "ArrowLeft" || String.eqb k "ArrowRight" || String.eqb k "Escape"
  then exists l, trace w' = trace w ++ l /\ ~ In ContinuePropagation l
  else w' = emit w ContinuePropagation.
Proof.
  cbv zeta. unfold subMenuOnKeyDown.
  destruct (String.eqb k "ArrowLeft"); cbn [orb].
  - destruct (direction w).
    + exists [CallClose]. unfold onSubMenuClose. cbn.
      rewrite trace_cancelOpenTimeout. split; [reflexivity|].
      intros [H|[]]; discriminate H.
    + exists []. rewrite app_nil_r. auto.
  - destruct (String.eqb k "ArrowRight"); cbn [orb].
    + exists []. rewrite app_nil_r. destruct (direction w); auto.
    + destruct (String.eqb k "Escape"); [|reflexivity].
      exists [CallCloseAll]. split; [reflexivity|].
      intros [H|[]]; discriminate H.
Qed.

(** ** More on the timer *)

Lemma opens_app (a b : list Effect) : opens (a ++ b) = opens a + opens b.
Proof.
  induction a as [|[] a IH]; cbn; rewrite ?IH; reflexivity.
Qed.

Lemma trigger_key_trace (w : World) (k : string) :
  let o := opensAtOnce (direction w) (TriggerKeyDown k) in
  trace (triggerOnKeyDown w k)
  = trace w ++ (if o then [CallOpen (Some first)] else []) ++ [ContinuePropagation] /\
  isOpen (triggerOnKeyDown w k) = (o || isOpen w).
Proof.
  cbv zeta. unfold triggerOnKeyDown, opensAtOnce.
  destruct (onSubmenuOpen_effect w (Some first)) as (T & O & F).
  destruct (String.eqb k "ArrowRight") eqn:ER.
  - destruct (direction w) eqn:D; cbn [orb];
      rewrite ?direction_onSubmenuOpen, ?D; cbn [emit trace isOpen];
      rewrite T, O, <- app_assoc; auto.
  - destruct (String.eqb k "ArrowLeft") eqn:EL;
      destruct (direction w) eqn:D; cbn [orb emit trace isOpen];
      rewrite ?T, ?O, <- ?app_assoc; auto.
Qed.

(** An event that opens at once leaves nothing scheduled and adds exactly
    one call of [state.open]. *)
Lemma opensAtOnce_step (w : World) (e : Event) :
  timersTracked w -> opensAtOnce (direction w) e = true ->
  timers (step w e) = [] /\ openTimeout (step w e) = None /\
  isOpen (step w e) = true /\
  opens (trace (step w e)) = S (opens (trace w)).
Proof.
  intros H Ho.
  assert (G : forall fs,
             timers (onSubmenuOpen w fs) = [] /\
             openTimeout (onSubmenuOpen w fs) = None /\
             isOpen (onSubmenuOpen w fs) = true /\
             opens (trace (onSubmenuOpen w fs)) = S (opens (trace w))).
  { intros fs. destruct (onSubmenuOpen_tracked w fs H) as (A & B & C & _ & D).
    rewrite D, opens_app. cbn. rewrite Nat.add_1_r. auto. }
  destruct e as [b | pt | pt | k | k | | ms]; try discriminate Ho; cbn [step].
  - destruct pt; try discriminate Ho; apply G.
  - destruct pt; try discriminate Ho; apply G.
  - destruct (trigger_key_trace w k) as (T & O).
    rewrite Ho in T, O. cbn [orb] in O.
    destruct (G (Some first)) as (A & B & _ & _).
    assert (Ht : timers (triggerOnKeyDown w k) = []
                 /\ openTimeout (triggerOnKeyDown w k) = None).
    { unfold triggerOnKeyDown. cbn [opensAtOnce] in Ho.
      destruct (String.eqb k "ArrowRight").
      - destruct (direction w) eqn:D;
          rewrite ?direction_onSubmenuOpen, ?D; cbn [emit timers openTimeout]; auto.
      - destruct (direction w) eqn:D; [discriminate Ho|].
        cbn [orb] in Ho. rewrite Ho. cbn [emit timers openTimeout]. auto. }
    destruct Ht as [Ht1 Ht2].
    rewrite T, !opens_app. cbn. rewrite Nat.add_1_r. auto.
Qed.

(** One event turns a closed submenu into an open one only by emptying
    the schedule. *)
Lemma step_opens_empties (w : World) (e : Event) :
  timersTracked w -> isOpen w = false -> isOpen (step w e) = true ->
  timers (step w e) = [].
Proof.
  intros H Hc Ho.
  destruct e as [b | pt | pt | k | k | | ms].
  - rewrite (proj1 (mouse_step_opens_nothing w (HoverChange b) eq_refl)) in Ho.
    congruence.
  - destruct pt; cbn [step onPressStart] in Ho |- *; try congruence;
      apply onSubmenuOpen_tracked; exact H.
  - destruct pt; cbn [step onPress] in Ho |- *; try congruence;
      apply onSubmenuOpen_tracked; exact H.
  - cbn [step] in *.
    destruct (trigger_key_trace w k) as (_ & O).
    rewrite O, Hc, orb_false_r in Ho.
    apply (opensAtOnce_step w (TriggerKeyDown k) H Ho).
  - cbn [step] in *. unfold subMenuOnKeyDown in *.
    destruct (String.eqb k "ArrowLeft").
    + destruct (direction w); [discriminate Ho | congruence].
    + destruct (String.eqb k "ArrowRight"); [destruct (direction w); congruence|].
      destruct (String.eqb k "Escape"); [discriminate Ho | cbn in Ho; congruence].
  - cbn [step] in *. exact (proj1 (cancelOpenTimeout_tracked w H)).
  - cbn [step] in *. pose proof (advance_tracked w ms H) as A.
    destruct (timers w) as [|t ts]; [exact (proj1 A)|].
    destruct (due t <=? now w + ms); [exact (proj1 A)|].
    destruct A as (_ & _ & A & _). congruence.
Qed.

Lemma step_pendingWhileClosed (w : World) (e : Event) :
  timersTracked w -> pendingWhileClosed w -> pendingWhileClosed (step w e).
Proof.
  intros H P Hne.
  destruct (isOpen (step w e)) eqn:Ho; [|reflexivity].
  destruct (isOpen w) eqn:Hw.
  - (* open before: nothing was scheduled, and nothing is armed while open *)
    assert (Ht : timers w = []).
    { destruct (timers w) eqn:E; [reflexivity|].
      assert (Hf : isOpen w = false) by (apply P; rewrite E; discriminate).
      congruence. }
    destruct (step_timers w e H) as [E | [E | (_ & Hc & _)]].
    + contradiction.
    + rewrite E in Hne. contradiction.
    + congruence.
  - exfalso. apply Hne. apply step_opens_empties; assumption.
Qed.

(** X8: along every run of a mounted trigger, whenever a timer is pending the
    submenu is closed: the delayed open is never aimed at a submenu that
    is already open. *)
Theorem timer_pending_only_while_closed (d : Direction) (o c : bool)
    (es : list Event) :
  pendingWhileClosed (run (mounted d o c) es).
Proof.
  assert (G : forall es w, timersTracked w -> pendingWhileClosed w ->
                           pendingWhileClosed (run w es)).
  { clear es. induction es as [|e es IH]; intros w H P; [exact P|].
    cbn [run fold_left]. apply IH.
    - apply step_tracked; exact H.
    - apply step_pendingWhileClosed; assumption. }
  apply G; [apply mounted_tracked|].
  intros Hne. exfalso. apply Hne. reflexivity.
Qed.

Lemma timer_pending_only_while_closed_witness :
  isOpen (run (mounted ltr true true)
            [SubMenuKeyDown "ArrowLeft"; HoverChange true; Advance 100]) = false.
Proof.
  apply (timer_pending_only_while_closed ltr true true
           [SubMenuKeyDown "ArrowLeft"; HoverChange true; Advance 100]).
  discriminate.
Defined.

(** X9: hover-enter events that repeat while the pointer stays on the trigger
    neither re-arm nor postpone the timer: after a hover-enter and any
    wait, a further hover-enter changes nothing. *)
Theorem hover_enter_again_changes_nothing (w : World) (ms : nat) :
  timersTracked w ->
  run w [HoverChange true; Advance ms; HoverChange true]
  = run w [HoverChange true; Advance ms].
Proof.
  intros H. cbn [run fold_left].
  set (w1 := step w (HoverChange true)).
  assert (H1 : timersTracked w1) by (apply step_tracked; exact H).
  assert (Hw1 : isOpen w1 = true \/ exists k x, openTimeout w1 = Some k
                                              /\ timers w1 = [mkTimer k x]).
  { unfold w1. cbn [step]. unfold onHoverChange.
    destruct (isOpen w) eqn:Ho; cbn [andb negb]; [left; exact Ho|].
    right. unfold timersTracked in H.
    destruct (openTimeout w) as [k|] eqn:E.
    - destruct H as [x Hx]. exists k, x. auto.
    - cbn. rewrite H. do 2 eexists. split; reflexivity. }
  pose proof (advance_tracked w1 ms H1) as A.
  set (w2 := step w1 (Advance ms)).
  change (advance w1 ms) with w2 in A.
  assert (Hw2 : isOpen w2 = true \/ exists k, openTimeout w2 = Some k).
  { destruct Hw1 as [Ho | (k & x & Hk & Ht)].
    - left. destruct (timers w1) as [|t ts].
      + destruct A as (_ & _ & A & _). congruence.
      + destruct (due t <=? now w1 + ms); destruct A as (_ & _ & A & _); congruence.
    - rewrite Ht in A. cbn [due] in A.
      destruct (x <=? now w1 + ms).
      + left. apply A.
      + right. exists k. destruct A as (_ & A & _). congruence. }
  cbn [step]. unfold onHoverChange.
  destruct Hw2 as [Ho | [k Hk]].
  - rewrite Ho. reflexivity.
  - rewrite Hk. destruct (isOpen w2); reflexivity.
Qed.

Lemma hover_enter_again_changes_nothing_witness :
  run (mounted ltr false true) [HoverChange true; Advance 120; HoverChange true]
  = run (mounted ltr false true) [HoverChange true; Advance 120].
Proof.
  apply (hover_enter_again_changes_nothing (mounted ltr false true) 120).
  reflexivity.
Defined.

(** X10: hover time does not add up: after a hover-exit, whatever came before,
    the next hover-enter on the closed trigger opens the submenu exactly
    when the wait that follows is at least 200ms, and then calls
    [state.open] once. *)
Theorem hover_delay_restarts (w : World) (ms : nat) :
  timersTracked w -> isOpen w = false ->
  let w' := run w [HoverChange false; HoverChange true; Advance ms] in
  isOpen w' = (200 <=? ms) /\
  opens (trace w') = opens (trace w) + (if 200 <=? ms then 1 else 0).
Proof.
  intros H Hc. cbn [run fold_left step].
  change (onHoverChange w false) with (cancelOpenTimeout w).
  destruct (cancelOpenTimeout_tracked w H) as (Ct & Co & Ci & Ctr & _).
  remember (cancelOpenTimeout w) as w1 eqn:Ew1. clear Ew1.
  set (w2 := onHoverChange w1 true).
  assert (E2 : timers w2 = [mkTimer (nextHandle w1) (now w1 + 200)]
               /\ openTimeout w2 = Some (nextHandle w1)
               /\ isOpen w2 = false /\ trace w2 = trace w /\ now w2 = now w1).
  { unfold w2, onHoverChange. rewrite Ci, Hc, Co. cbn. rewrite Ct, Ctr, Ci, Hc.
    auto. }
  destruct E2 as (T2 & O2 & I2 & Tr2 & N2).
  assert (H2 : timersTracked w2).
  { unfold timersTracked. rewrite O2. eexists. exact T2. }
  pose proof (advance_tracked w2 ms H2) as A.
  rewrite T2 in A. cbn [due] in A. rewrite N2 in A.
  assert (Eb : (now w1 + 200 <=? now w1 + ms) = (200 <=? ms)).
  { destruct (200 <=? ms) eqn:E.
    - apply Nat.leb_le in E. apply Nat.leb_le. lia.
    - apply Nat.leb_gt in E. apply Nat.leb_gt. lia. }
  rewrite Eb in A.
  destruct (200 <=? ms); destruct A as (_ & _ & Ai & Atr); rewrite Ai, Atr.
  - rewrite opens_app, Tr2. cbn. auto.
  - rewrite Tr2, I2, Nat.add_0_r. auto.
Qed.

Lemma hover_delay_restarts_witness :
  isOpen (run (run (mounted ltr false true) [HoverChange true; Advance 150])
            [HoverChange false; HoverChange true; Advance 150]) = false.
Proof.
  apply (hover_delay_restarts
           (run (mounted ltr false true) [HoverChange true; Advance 150]) 150).
  - exists 200. reflexivity.
  - reflexivity.
Defined.

(** X11: an immediate open (press-start of type virtual or keyboard, press of
    type touch, an opening arrow key on the trigger) takes the place of a
    pending delayed open: [state.open] is called exactly once, however
    much time passes afterwards. *)
Theorem immediate_open_supersedes_timer (w : World) (e : Event) (ds : list nat) :
  timersTracked w -> opensAtOnce (direction w) e = true ->
  let w' := run w (e :: map Advance ds) in
  isOpen w' = true /\ opens (trace w') = S (opens (trace w)).
Proof.
  intros H Ho. cbn [run fold_left].
  destruct (opensAtOnce_step w e H Ho) as (Ht & _ & Hi & Hn).
  destruct (idle_time_passes ds (step w e) Ht) as (_ & I2 & I3).
  unfold run in I2, I3. rewrite I2, I3. auto.
Qed.

Lemma immediate_open_supersedes_timer_witness :
  opens (trace (run (step (mounted rtl false true) (HoverChange true))
                  [TriggerKeyDown "ArrowRight"; Advance 500; Advance 500])) = 1.
Proof.
  apply (immediate_open_supersedes_timer
           (step (mounted rtl false true) (HoverChange true))
           (TriggerKeyDown "ArrowRight") [500; 500]).
  - exists 200. reflexivity.
  - reflexivity.
Defined.

End SubMenuFacts.

(* ===================================================================== *)
(** * Properties of the grouping of search hits *)
(* ===================================================================== *)

Module DocSearchFacts.
Import DocSearch.
Local Open Scope nat_scope.

Lemma getProp_setProp_same {A : Type} (o : Accumulator A) (key : string)
    (v : list A) :
  String.eqb key "__proto__" = false ->
  getProp (setProp o key v) key = Some v.
Proof.
  intros Hk. unfold getProp, setProp. rewrite Hk. cbn.
  rewrite String.eqb_refl. reflexivity.
Qed.

Lemma getProp_setProp_other {A : Type} (o : Accumulator A) (key key' : string)
    (v : list A) :
  String.eqb key' "__proto__" = false -> String.eqb key key' = false ->
  getProp (setProp o key v) key' = getProp o key'.
Proof.
  intros Hk Hne. unfold getProp, setProp.
  destruct (String.eqb key "__proto__"); cbn.
  - rewrite Hk. reflexivity.
  - rewrite String.eqb_sym, Hne. reflexivity.
Qed.

Lemma own_setProp_proto {A : Type} (o : Accumulator A) (key : string) (v : list A) :
  own (setProp o key v) "__proto__" = own o "__proto__".
Proof.
  unfold setProp. destruct (String.eqb key "__proto__") eqn:E; cbn [own];
    [reflexivity|].
  rewrite String.eqb_sym, E. reflexivity.
Qed.

(** What one step of the reduction does to an ordinary property [key]. *)
Lemma getProp_groupStep {A : Type} (predicate : A -> string) (acc : Accumulator A)
    (item : A) (key : string) :
  String.eqb key "__proto__" = false ->
  getProp (groupStep predicate acc item) key =
  if String.eqb (predicate item) key
  then let group := match getProp acc key with Some g => g | None => [] end in
       Some (if List.length group <? 21 then group ++ [item] else group)
  else getProp acc key.
Proof.
  intros Hk. unfold groupStep.
  destruct (String.eqb (predicate item) key) eqn:E.
  - apply String.eqb_eq in E. rewrite E. cbv zeta. unfold hasOwnProperty.
    destruct (own acc key) as [g|] eqn:G.
    + assert (Gp : getProp acc key = Some g) by (unfold getProp; rewrite G; reflexivity).
      rewrite Gp. destruct (List.length g <? 21).
      * apply getProp_setProp_same. exact Hk.
      * exact Gp.
    + assert (Gp : getProp acc key = None)
        by (unfold getProp; rewrite G, Hk; reflexivity).
      rewrite Gp, getProp_setProp_same by exact Hk. cbn.
      apply getProp_setProp_same. exact Hk.
  - cbv zeta.
    destruct (hasOwnProperty acc (predicate item));
      destruct (getProp _ (predicate item)) as [g|];
      try destruct (List.length g <? 21);
      rewrite ?getProp_setProp_other by assumption; reflexivity.
Qed.

(** What one step does to the name __proto__: it never becomes an own
    property, and an item filed under it takes the place of the whole
    prototype array. *)
Lemma groupStep_proto {A : Type} (predicate : A -> string) (acc : Accumulator A)
    (item : A) :
  own acc "__proto__" = None ->
  own (groupStep predicate acc item) "__proto__" = None /\
  prototype (groupStep predicate acc item)
  = if String.eqb (predicate item) "__proto__" then Some [item] else prototype acc.
Proof.
  intros Ho. unfold groupStep.
  destruct (String.eqb (predicate item) "__proto__") eqn:E.
  - apply String.eqb_eq in E. rewrite E. unfold hasOwnProperty. rewrite Ho.
    unfold getProp, setProp. cbn. rewrite Ho. cbn. auto.
  - cbv zeta. split.
    + destruct (hasOwnProperty acc (predicate item));
        destruct (getProp _ (predicate item)) as [g|];
        try destruct (List.length g <? 21);
        rewrite ?own_setProp_proto; exact Ho.
    + assert (P : forall (o : Accumulator A) v,
                 prototype (setProp o (predicate item) v) = prototype o)
        by (intros o v; unfold setProp; rewrite E; reflexivity).
      destruct (hasOwnProperty acc (predicate item));
        destruct (getProp _ (predicate item)) as [g|];
        try destruct (List.length g <? 21);
        rewrite ?P; reflexivity.
Qed.

Lemma firstn_snoc_cap {A : Type} (n : nat) (l : list A) (x : A) :
  firstn (S n) (l ++ [x]) =
  if List.length (firstn (S n) l) <? S n then firstn (S n) l ++ [x]
  else firstn (S n) l.
Proof.
  destruct (Nat.le_gt_cases (List.length l) n) as [Hle | Hgt].
  - rewrite (firstn_all2 l) by lia.
    replace (List.length l <? S n) with true by (symmetry; apply Nat.ltb_lt; lia).
    apply firstn_all2. rewrite length_app. cbn. lia.
  - rewrite length_firstn, Nat.min_l by lia.
    rewrite Nat.ltb_irrefl, firstn_app.
    replace (S n - List.length l) with 0 by lia.
    cbn. apply app_nil_r.
Qed.

Lemma getProp_groupBy {A : Type} (values : list A) (predicate : A -> string)
    (key : string) :
  String.eqb key "__proto__" = false ->
  getProp (groupBy values predicate) key =
  match withKey predicate key values with
  | [] => None
  | g => Some (firstn 21 g)
  end.
Proof.
  intros Hk.
  induction values as [|v vs IH] using rev_ind.
  - unfold groupBy, getProp. cbn. rewrite Hk. reflexivity.
  - unfold groupBy in *. rewrite fold_left_app. cbn [fold_left].
    rewrite getProp_groupStep by exact Hk. rewrite IH.
    unfold withKey. rewrite filter_app. cbn [filter].
    destruct (String.eqb (predicate v) key).
    + cbv zeta.
      destruct (filter (fun v0 : A => String.eqb (predicate v0) key) vs) as [|x F].
      * reflexivity.
      * rewrite <- firstn_snoc_cap. reflexivity.
    + rewrite app_nil_r. reflexivity.
Qed.

Lemma proto_groupBy {A : Type} (values : list A) (predicate : A -> string) :
  own (groupBy values predicate) "__proto__" = None /\
  prototype (groupBy values predicate)
  = match rev (withKey predicate "__proto__" values) with
    | [] => None
    | x :: _ => Some [x]
    end.
Proof.
  induction values as [|v vs IH] using rev_ind; [split; reflexivity|].
  destruct IH as [IHo IHp].
  unfold groupBy in *. rewrite fold_left_app. cbn [fold_left].
  destruct (groupStep_proto predicate _ v IHo) as [Ho Hp].
  split; [exact Ho|]. rewrite Hp.
  unfold withKey. rewrite filter_app, rev_app_distr. cbn [filter].
  destruct (String.eqb (predicate v) "__proto__"); [reflexivity | exact IHp].
Qed.

(** X12: for every key other than __proto__, [groupBy] files every item
    under the key its predicate gives, keeps the order of the input inside
    a group and keeps the first 21 items of a key, dropping the later ones
    (the check is [length < 21], one more than the 20 its comment speaks
    of); such a key is an own property of the result exactly when some
    item has it, so no group is empty.  The key __proto__ is never an own
    property of the result: each item filed under it replaces the
    prototype of the result by an array holding that item alone. *)
Theorem groupBy_groups {A : Type} (values : list A) (predicate : A -> string) :
  (forall key, key <> "__proto__"%string ->
     getProp (groupBy values predicate) key =
     match withKey predicate key values with
     | [] => None
     | g => Some (firstn 21 g)
     end /\
     (hasOwnProperty (groupBy values predicate) key
      = existsb (fun v => String.eqb (predicate v) key) values) /\
     (forall g, getProp (groupBy values predicate) key = Some g ->
        1 <= List.length g <= 21 /\
        (List.length (withKey predicate key values) <= 21 ->
         g = withKey predicate key values))) /\
  hasOwnProperty (groupBy values predicate) "__proto__" = false /\
  prototype (groupBy values predicate)
  = match rev (withKey predicate "__proto__" values) with
    | [] => None
    | x :: _ => Some [x]
    end.
Proof.
  destruct (proto_groupBy values predicate) as [Po Pp].
  split; [|split; [unfold hasOwnProperty; rewrite Po; reflexivity | exact Pp]].
  intros key Hne.
  assert (Hk : String.eqb key "__proto__" = false)
    by (apply String.eqb_neq; exact Hne).
  pose proof (getProp_groupBy values predicate key Hk) as L.
  split; [exact L|]. split.
  - assert (Ho : hasOwnProperty (groupBy values predicate) key
                 = match getProp (groupBy values predicate) key with
                   | Some _ => true
                   | None => false
                   end).
    { unfold hasOwnProperty, getProp. rewrite Hk.
      destruct (own (groupBy values predicate) key); reflexivity. }
    rewrite Ho, L. unfold withKey. clear.
    induction values as [|v vs IH]; [reflexivity|].
    cbn. destruct (String.eqb (predicate v) key); [reflexivity | exact IH].
  - intros g Hg. rewrite L in Hg.
    destruct (withKey predicate key values) as [|x F] eqn:E; [discriminate Hg|].
    assert (Eg : g = firstn 21 (x :: F)) by congruence.
    rewrite Eg. split.
    + rewrite length_firstn. cbn [List.length]. lia.
    + intros Hlen. apply firstn_all2. exact Hlen.
Qed.

Lemma groupBy_groups_witness :
  exists g, getProp (groupBy (repeat "hit"%string 22) (fun v => v)) "hit" = Some g /\
            List.length g = 21.
Proof.
  exists (repeat "hit"%string 21). split; [reflexivity|].
  destruct (groupBy_groups (repeat "hit"%string 22) (fun v => v)) as (H & _).
  destruct (H "hit"%string) as (_ & _ & Hg); [discriminate|].
  destruct (Hg (repeat "hit"%string 21) eq_refl) as [[_ Hle] _].
  apply Nat.le_antisymm; [exact Hle | cbn; lia].
Defined.

End DocSearchFacts.
